(** * The binary codec of common-go (package common)

    A shallow embedding of the encode/decode helpers that read and write
    primitive values on a Go [bytes.Buffer], followed by the properties of
    the codec that the specification states.

    Modelling conventions.
    - A [bytes.Buffer] is observed through its unread bytes only: reads
      consume from the front, writes append at the back.  The buffer that a
      Go function receives by pointer is threaded through a state monad.
    - A Go result [(v, err)] is the pair [(v, e)] with [e : option error],
      [None] standing for the nil error.
    - uint16, uint32, int and int64 values are integers of [Z]; every
      conversion that narrows writes its wrap-around out.  [int] is taken to
      be 64 bits wide, so [int(l)] keeps the value of a uint32 [l].
    - A Go string is its sequence of bytes.
    - float64 arithmetic is IEEE-754 binary64 as specified by
      [SpecFloat] (precision 53, emax 1024, round to nearest even). *)

From Stdlib Require Import ZArith Lia List Bool Strings.String Strings.Byte.
From Stdlib Require Import Floats.SpecFloat.
From stdpp Require Import base list.

Local Open Scope Z_scope.

(** ** Bytes and fixed-width integers *)

(** [uintN(x)]: conversion of an integer to an unsigned type of [w] bits. *)
Definition wrap (w : Z) (x : Z) : Z := x mod 2 ^ w.

(** [int64(x)] for a result of int64 arithmetic: two's complement. *)
Definition wrap_int64 (x : Z) : Z := (x + 2 ^ 63) mod 2 ^ 64 - 2 ^ 63.

(** [uint32(b)] and the like, for a byte [b]. *)
Definition Z_of_byte (b : byte) : Z := Z.of_N (Byte.to_N b).

(** [byte(x)]: the low eight bits of [x]. *)
Definition byte_of_Z (x : Z) : byte :=
  match Byte.of_N (Z.to_N (wrap 8 x)) with
  | Some b => b
  | None => x00
  end.

(** A Go string, as the bytes it holds. *)
Definition gostring : Type := list byte.

(** [len(v)] as an int. *)
Definition len {A : Type} (v : list A) : Z := Z.of_nat (length v).

(** A Go slice value: the nil slice, or a slice with elements. *)
Inductive slice (A : Type) : Type :=
| Nil : slice A
| Slice (l : list A) : slice A.
Arguments Nil {A}.
Arguments Slice {A} l.

Definition elems {A : Type} (s : slice A) : list A :=
  match s with
  | Nil => []
  | Slice l => l
  end.

(** [binary.LittleEndian.PutUint16] and [PutUint32]: the bytes stored in a
    slice of two or four bytes. *)
Definition PutUint16 (i : Z) : list byte :=
  [byte_of_Z i; byte_of_Z (Z.shiftr i 8)].

Definition PutUint32 (i : Z) : list byte :=
  [byte_of_Z i; byte_of_Z (Z.shiftr i 8);
   byte_of_Z (Z.shiftr i 16); byte_of_Z (Z.shiftr i 24)].

(** [binary.LittleEndian.Uint16] and [Uint32], on slices that the callers
    have checked to hold two and four bytes. *)
Definition Uint16 (d : list byte) : Z :=
  match d with
  | [b0; b1] => Z.lor (Z_of_byte b0) (Z.shiftl (Z_of_byte b1) 8)
  | _ => 0
  end.

Definition Uint32 (d : list byte) : Z :=
  match d with
  | [b0; b1; b2; b3] =>
      Z.lor (Z.lor (Z.lor (Z_of_byte b0) (Z.shiftl (Z_of_byte b1) 8))
                   (Z.shiftl (Z_of_byte b2) 16))
            (Z.shiftl (Z_of_byte b3) 24)
  | _ => 0
  end.

(** ** Errors *)

(** The error values the codec can return: [io.EOF] from
    [bytes.Buffer.ReadBytes], the messages built with [fmt.Errorf] in
    io.go, and the errors of package time. *)
Inductive error : Type :=
| EOF
| ErrBytesIncorrect (n : Z) (what : string)
| ErrReadExpected (n l : Z)
| ErrMismatched (l n : Z)
| ErrTime (msg : string).

(** The errors that report a buffer holding fewer bytes than a read
    needs. *)
Definition TruncatedInput (e : error) : bool :=
  match e with
  | EOF | ErrBytesIncorrect _ _ | ErrReadExpected _ _ => true
  | _ => false
  end.

(** ** bytes.Buffer *)

Definition Buffer : Type := list byte.

(** A computation on the buffer passed by pointer. *)
Definition Buf (A : Type) : Type := Buffer -> A * Buffer.

Definition ret {A : Type} (a : A) : Buf A := fun b => (a, b).

Definition bind {A B : Type} (m : Buf A) (k : A -> Buf B) : Buf B :=
  fun b => let '(a, b') := m b in k a b'.

Notation "'let*' x ':=' m 'in' k" := (bind m (fun x => k))
  (at level 10, x pattern, m at level 100, k at level 200).

(** [b.Next(n)]: the next [n] unread bytes, or all of them when fewer
    remain; the cursor moves past what is returned. *)
Definition Buffer_Next (n : Z) : Buf (list byte) :=
  fun b => (firstn (Z.to_nat n) b, skipn (Z.to_nat n) b).

(** The position of the first byte equal to [delim] ([bytes.IndexByte]). *)
Fixpoint IndexByte (b : list byte) (delim : byte) : option nat :=
  match b with
  | [] => None
  | c :: b' =>
      if Byte.eqb c delim then Some O
      else match IndexByte b' delim with
           | Some i => Some (S i)
           | None => None
           end
  end.

(** [b.ReadBytes(delim)]: the bytes up to and including the first
    [delim]; without one, all unread bytes together with [io.EOF]. *)
Definition Buffer_ReadBytes (delim : byte) : Buf (list byte * option error) :=
  fun b =>
    match IndexByte b delim with
    | Some i => ((firstn (S i) b, None), skipn (S i) b)
    | None => ((b, Some EOF), [])
    end.

(** [b.Write(p)], [b.WriteString(s)] and [b.WriteByte(c)] append and
    report the number of bytes appended with a nil error. *)
Definition Buffer_Write (p : list byte) : Buf (Z * option error) :=
  fun b => ((len p, None), b ++ p).

Definition Buffer_WriteString (s : gostring) : Buf (Z * option error) :=
  fun b => ((len s, None), b ++ s).

Definition Buffer_WriteByte (c : byte) : Buf (option error) :=
  fun b => (None, b ++ [c]).

(** ** Scalars *)

Definition ReadByte : Buf (byte * option error) :=
  let* d := Buffer_Next 1 in
  if negb (len d =? 1)
  then ret (x00, Some (ErrBytesIncorrect (len d) "byte"))
  else ret (hd x00 d, None).

Definition WriteByte (i : byte) : Buf (option error) :=
  Buffer_WriteByte i.

Definition ReadBool : Buf (bool * option error) :=
  let* d := Buffer_Next 1 in
  if negb (len d =? 1)
  then ret (false, Some (ErrBytesIncorrect (len d) "bool"))
  else ret (negb (Byte.eqb (hd x00 d) x00), None).

Definition WriteBool (v : bool) : Buf (option error) :=
  let d := if v then x01 else x00 in
  Buffer_WriteByte d.

Definition ReadUint32 : Buf (Z * option error) :=
  let* d := Buffer_Next 4 in
  if negb (len d =? 4)
  then ret (0, Some (ErrBytesIncorrect (len d) "Uint32"))
  else ret (Uint32 d, None).

Definition ReadUint16 : Buf (Z * option error) :=
  let* d := Buffer_Next 2 in
  if negb (len d =? 2)
  then ret (0, Some (ErrBytesIncorrect (len d) "Uint16"))
  else ret (Uint16 d, None).

Definition WriteUint16 (i : Z) : Buf (option error) :=
  let v := PutUint16 i in
  let* (l, err) := Buffer_Write v in
  match err with
  | None => if negb (l =? len v)
            then ret (Some (ErrMismatched l (len v)))
            else ret err
  | Some _ => ret err
  end.

Definition WriteUint32 (i : Z) : Buf (option error) :=
  let v := PutUint32 i in
  let* (l, err) := Buffer_Write v in
  match err with
  | None => if negb (l =? len v)
            then ret (Some (ErrMismatched l (len v)))
            else ret err
  | Some _ => ret err
  end.

(** A float32 value, carried as its IEEE-754 bit pattern:
    [math.Float32bits] and [math.Float32frombits] reinterpret the 32 bits
    without changing them. *)
Record float32 : Type := Float32frombits { Float32bits : Z }.

Definition WriteFloat32 (f : float32) : Buf (option error) :=
  WriteUint32 (Float32bits f).

Definition ReadFloat32 : Buf (float32 * option error) :=
  let* (f, err) := ReadUint32 in
  match err with
  | Some e => ret (Float32frombits 0, Some e)
  | None => ret (Float32frombits f, None)
  end.

(** ** Strings and byte arrays *)

(** [ReadString]: a string ended by a zero byte; [s[0 : len(s)-1]] drops
    the terminator that [ReadBytes] returned with the rest. *)
Definition ReadString : Buf (gostring * option error) :=
  let* (s, err) := Buffer_ReadBytes x00 in
  match err with
  | None => ret (firstn (Z.to_nat (len s - 1)) s, err)
  | Some _ => ret ([], err)
  end.

(** [WriteString]: the bytes of the string, then the zero terminator (the
    result of the [WriteByte] call is dropped by the source). *)
Definition WriteString (s : gostring) : Buf (option error) :=
  let* (l, err) := Buffer_WriteString s in
  match err with
  | None =>
      if negb (l =? len s)
      then ret (Some (ErrMismatched l (len s)))
      else let* _ := Buffer_WriteByte x00 in ret err
  | Some _ => ret err
  end.

(** [ReadByteArray]: a uint32 length, then [b.Next(int(l))]. *)
Definition ReadByteArray : Buf (slice byte * option error) :=
  let* (l, err) := ReadUint32 in
  match err with
  | Some e => ret (Nil, Some e)
  | None => let* d := Buffer_Next l in ret (Slice d, err)
  end.

(** [ReadByteArrayNoLength], for a length [l >= 0] ([b.Next] panics on a
    negative count, which the model leaves out). *)
Definition ReadByteArrayNoLength (l : Z) : Buf (slice byte * option error) :=
  let* v := Buffer_Next l in
  if negb (len v =? l)
  then ret (Nil, Some (ErrReadExpected (len v) l))
  else ret (Slice v, None).

Definition WriteByteArrayNoLength (v : list byte) : Buf (option error) :=
  let* (l, err) := Buffer_Write v in
  match err with
  | None => if negb (l =? len v)
            then ret (Some (ErrMismatched l (len v)))
            else ret err
  | Some _ => ret err
  end.

Definition WriteByteArray (v : list byte) : Buf (option error) :=
  let* err := WriteUint32 (wrap 32 (len v)) in
  match err with
  | Some e => ret (Some e)
  | None => WriteByteArrayNoLength v
  end.

(** ** Arrays of strings and of byte arrays *)

(** The body of [for _, i := range v] in [WriteStrings]. *)
Fixpoint WriteStrings_range (v : list gostring) : Buf (option error) :=
  match v with
  | [] => ret None
  | i :: v' =>
      let* err := WriteString i in
      match err with
      | Some e => ret (Some e)
      | None => WriteStrings_range v'
      end
  end.

Definition WriteStrings (v : list gostring) : Buf (option error) :=
  let* err := WriteUint16 (wrap 16 (len v)) in
  match err with
  | Some e => ret (Some e)
  | None => WriteStrings_range v
  end.

(** The loop [for i := uint16(0); i < c; i++] of [ReadStrings], with [n]
    the number of iterations still to run ([c - i]) and [v] the slice made
    before the loop, assigned at index [i] by each iteration. *)
Fixpoint ReadStrings_loop (n : nat) (i : nat) (v : list gostring)
  : Buf (slice gostring * option error) :=
  match n with
  | O => ret (Slice v, None)
  | S n' =>
      let* (s, err) := ReadString in
      let v := <[i := s]> v in
      match err with
      | Some e => ret (Nil, Some e)
      | None => ReadStrings_loop n' (S i) v
      end
  end.

Definition ReadStrings : Buf (slice gostring * option error) :=
  let* (c, err) := ReadUint16 in
  match err with
  | Some e => ret (Nil, Some e)
  | None =>
      let v := replicate (Z.to_nat c) ([] : gostring) in
      ReadStrings_loop (Z.to_nat c) 0 v
  end.

Fixpoint WriteByteArrayArray_range (v : list (list byte)) : Buf (option error) :=
  match v with
  | [] => ret None
  | i :: v' =>
      let* err := WriteByteArray i in
      match err with
      | Some e => ret (Some e)
      | None => WriteByteArrayArray_range v'
      end
  end.

Definition WriteByteArrayArray (v : list (list byte)) : Buf (option error) :=
  let* err := WriteUint16 (wrap 16 (len v)) in
  match err with
  | Some e => ret (Some e)
  | None => WriteByteArrayArray_range v
  end.

(** The loop of [ReadByteArrayArray]; the elements of the slice made
    before the loop are nil slices. *)
Fixpoint ReadByteArrayArray_loop (n : nat) (i : nat) (v : list (slice byte))
  : Buf (slice (slice byte) * option error) :=
  match n with
  | O => ret (Slice v, None)
  | S n' =>
      let* (s, err) := ReadByteArray in
      let v := <[i := s]> v in
      match err with
      | Some e => ret (Nil, Some e)
      | None => ReadByteArrayArray_loop n' (S i) v
      end
  end.

Definition ReadByteArrayArray : Buf (slice (slice byte) * option error) :=
  let* (c, err) := ReadUint16 in
  match err with
  | Some e => ret (Nil, Some e)
  | None =>
      let v := replicate (Z.to_nat c) (@Nil byte) in
      ReadByteArrayArray_loop (Z.to_nat c) 0 v
  end.

(** [WriteByteArrayArrayNoLength]: the byte arrays one after the other,
    with neither a count nor lengths. *)
Fixpoint WriteByteArrayArrayNoLength (v : list (list byte)) : Buf (option error) :=
  match v with
  | [] => ret None
  | i :: v' =>
      let* err := WriteByteArrayNoLength i in
      match err with
      | Some e => ret (Some e)
      | None => WriteByteArrayArrayNoLength v'
      end
  end.

(** ** Package time and float64 *)

(** A [time.Duration]: an int64 count of nanoseconds. *)
Definition Duration : Type := Z.

Definition minDuration : Duration := - 2 ^ 63.
Definition maxDuration : Duration := 2 ^ 63 - 1.
Definition Second : Duration := 1000000000.
Definition Minute : Duration := 60 * Second.
Definition Hour : Duration := 60 * Minute.

(** A [time.Time] without its location and monotonic reading: the instant,
    in nanoseconds since the zero Time (January 1, year 1, 00:00:00 UTC). *)
Definition Time : Type := Z.

(** [time.Time{}]. *)
Definition Time_zero : Time := 0.

(** [t.Sub(u)]: the difference, or the largest or smallest Duration when
    the difference does not fit an int64. *)
Definition Time_Sub (t u : Time) : Duration :=
  let d := t - u in
  if d <? minDuration then minDuration
  else if maxDuration <? d then maxDuration
  else d.

(** [t.Add(d)]. *)
Definition Time_Add (t : Time) (d : Duration) : Time := t + d.

(** [a * b] on Durations: int64 multiplication. *)
Definition Duration_mul (a b : Duration) : Duration := wrap_int64 (a * b).

Definition float64 : Type := spec_float.

(** [float64(x)] for an integer [x]. *)
Definition float64_of_int (x : Z) : float64 :=
  binary_normalize 53 1024 x 0 false.

Definition float64_add (x y : float64) : float64 := SFadd 53 1024 x y.
Definition float64_div (x y : float64) : float64 := SFdiv 53 1024 x y.

(** [d.Minutes()] and [d.Hours()], as package time computes them: the
    whole part and the remainder are converted separately and added. *)
Definition Duration_Minutes (d : Duration) : float64 :=
  let min := Z.quot d Minute in
  let nsec := Z.rem d Minute in
  float64_add (float64_of_int min)
              (float64_div (float64_of_int nsec) (float64_of_int (60 * 1000000000))).

Definition Duration_Hours (d : Duration) : float64 :=
  let hour := Z.quot d Hour in
  let nsec := Z.rem d Hour in
  float64_add (float64_of_int hour)
              (float64_div (float64_of_int nsec)
                           (float64_of_int (60 * 60 * 1000000000))).

(** The integer part of a finite float64 (the fraction is discarded). *)
Definition float64_trunc (x : float64) : option Z :=
  match x with
  | S754_zero _ => Some 0
  | S754_finite s m e => Some (cond_Zopp s (Z.shiftl (Zpos m) e))
  | S754_infinity _ | S754_nan => None
  end.

(** Big-endian fields of the encoding of a Time. *)
Fixpoint be_combine (acc : Z) (d : list byte) : Z :=
  match d with
  | [] => acc
  | c :: d' => be_combine (Z.lor (Z.shiftl acc 8) (Z_of_byte c)) d'
  end.

(** [t.GobDecode(data)], that is [t.UnmarshalBinary(data)] of package
    time: the three checks it makes, and [t] assigned only when the data
    passes them.  The decoded instant is the one of the seconds and
    nanoseconds fields, for a nanoseconds field below 2^30 as [GobEncode]
    writes it; the zone offset that follows does not change the
    instant. *)
Definition Time_GobDecode (t : Time) (data : list byte) : Time * option error :=
  match data with
  | [] => (t, Some (ErrTime "Time.UnmarshalBinary: no data"))
  | version :: buf =>
      if negb (Byte.eqb version x01) && negb (Byte.eqb version x02)
      then (t, Some (ErrTime "Time.UnmarshalBinary: unsupported version"))
      else
        let wantLen := if Byte.eqb version x02 then 16 else 15 in
        if negb (len data =? wantLen)
        then (t, Some (ErrTime "Time.UnmarshalBinary: invalid length"))
        else
          let sec := wrap_int64 (be_combine 0 (firstn 8 buf)) in
          let nsec := be_combine 0 (firstn 4 (skipn 8 buf)) in
          (sec * Second + nsec, None)
  end.

(** ** Dates and times *)

Section Dates.

(** The epoch of the compact date encodings.  Its declaration is in a
    file of the package that is not among the sources, so it is a
    parameter here. *)
Variable IoDateBase : Time.

(** The result of converting a float64 that the unsigned type of [w]
    bits cannot represent: Go leaves it to the implementation. *)
Variable uint_of_unrepresentable : Z -> float64 -> Z.

(** [t.GobEncode()] of package time: the bytes and the error it
    returns. *)
Variable Time_GobEncode : Time -> list byte * option error.

(** [uint32(f)] and [uint16(f)] for a float64 [f]. *)
Definition uint_of_float64 (w : Z) (x : float64) : Z :=
  match float64_trunc x with
  | Some z =>
      if (0 <=? z) && (z <? 2 ^ w) then z
      else wrap w (uint_of_unrepresentable w x)
  | None => wrap w (uint_of_unrepresentable w x)
  end.

Definition GetDateInMinutes (t : Time) : Z :=
  uint_of_float64 32 (Duration_Minutes (Time_Sub t IoDateBase)).

Definition GetDateFromMinutes (t : Z) : Time :=
  Time_Add IoDateBase (Duration_mul Minute t).

Definition ReadDateFromUInt32 : Buf (Time * option error) :=
  let* (i, err) := ReadUint32 in
  match err with
  | Some e => ret (Time_zero, Some e)
  | None => ret (Time_Add IoDateBase (Duration_mul i Minute), None)
  end.

Definition WriteDateToUInt32 (t : Time) : Buf (option error) :=
  WriteUint32 (GetDateInMinutes t).

Definition ReadDate : Buf (Time * option error) :=
  let* (d, err) := ReadUint16 in
  match err with
  | Some e => ret (Time_zero, Some e)
  | None =>
      ret (Time_Add IoDateBase (Duration_mul (Duration_mul d Hour) 24), None)
  end.

Definition WriteDate (t : Time) : Buf (option error) :=
  WriteUint16
    (uint_of_float64 16
       (float64_div (Duration_Hours (Time_Sub t IoDateBase))
                    (float64_of_int 24))).

(** [ReadTime]: the result of [t.GobDecode(d)] is not looked at. *)
Definition ReadTime : Buf (Time * option error) :=
  let t := Time_zero in
  let* (d, err) := ReadByteArray in
  match err with
  | None => let t := fst (Time_GobDecode t (elems d)) in ret (t, err)
  | Some _ => ret (t, err)
  end.

Definition WriteTime (t : Time) : Buf (option error) :=
  let (d, err) := Time_GobEncode t in
  match err with
  | Some e => ret (Some e)
  | None => WriteByteArray d
  end.

End Dates.

(** ** Nested objects *)

(** [ReadMarshaller] and [WriteMarshaller]: the interface value is
    represented by what its method answers, [UnmarshalBinary] as a
    function of the bytes and [MarshalBinary] as its result. *)
Definition ReadMarshaller (UnmarshalBinary : list byte -> option error)
  : Buf (option error) :=
  let* (v, err) := ReadByteArray in
  match err with
  | Some e => ret (Some e)
  | None => ret (UnmarshalBinary (elems v))
  end.

Definition WriteMarshaller (MarshalBinary : list byte * option error)
  : Buf (option error) :=
  let (v, err) := MarshalBinary in
  match err with
  | Some e => ret (Some e)
  | None => WriteByteArray v
  end.

(** ** Vocabulary of the properties *)

(** What it means for a decoder to recover [v] from what an encoder wrote
    to an empty buffer: the encoder reports no error, and the decoder
    returns [v] with no error and leaves nothing unread. *)
Definition round_trips {A : Type} (enc : Buf (option error))
  (dec : Buf (A * option error)) (v : A) : Prop :=
  fst (enc []) = None /\ dec (snd (enc [])) = ((v, None), []).

(** The bytes that follow the count: every string with its terminator. *)
Definition strings_bytes (v : list gostring) : list byte :=
  concat (map (fun s => s ++ [x00]) v).

(** The bytes that follow the count: every byte array with its length. *)
Definition byte_arrays_bytes (v : list (list byte)) : list byte :=
  concat (map (fun d => PutUint32 (wrap 32 (len d)) ++ d) v).

(** A time cut to the whole minutes of its distance to the epoch. *)
Definition truncated_to_minute (IoDateBase t : Time) : Time :=
  IoDateBase + Z.quot (t - IoDateBase) Minute * Minute.

(** January 1, 2020, 00:00:00 UTC, an epoch for the examples. *)
Definition epoch_2020 : Time := 63713433600 * Second.

(** One implementation choice for the conversion of a float64 the target
    type cannot represent, for the examples. *)
Definition conv_zero (w : Z) (x : float64) : Z := 0.

(** A write that cannot fail and only appends: it returns a nil error,
    keeps the bytes already in the buffer, and what it appends does not
    depend on them. *)
Definition appends_only (enc : Buf (option error)) : Prop :=
  forall b : Buffer, fst (enc b) = None /\ snd (enc b) = b ++ snd (enc []).


(** A read whose failures leave nothing unread. *)
Definition drains_on_error {A : Type} (dec : Buf (A * option error)) : Prop :=
  forall (b b' : Buffer) (v : A) (e : error),
    dec b = ((v, Some e), b') -> b' = [].

(** One write after the other, as a caller sequences them: the second
    write runs only if the first returned a nil error. *)
Definition then_write (enc1 enc2 : Buf (option error)) : Buf (option error) :=
  let* err := enc1 in
  match err with
  | Some e => ret (Some e)
  | None => enc2
  end.


(** A decoder reads nothing but what the encoder writes: every buffer it
    decodes without error began with the encoding of the value returned,
    and the bytes left unread are the ones that followed it. *)
Definition reads_only_encodings {A : Type} (dec : Buf (A * option error))
  (enc : A -> Buf (option error)) : Prop :=
  forall (b rest : Buffer) (v : A),
    dec b = ((v, None), rest) -> b = snd (enc v []) ++ rest.

(** A time cut to the whole days of its distance to the epoch. *)
Definition truncated_to_day (IoDateBase t : Time) : Time :=
  IoDateBase + Z.quot (t - IoDateBase) (24 * Hour) * (24 * Hour).

(** A float64 with its sign replaced. *)
Definition with_sign (s : bool) (x : float64) : float64 :=
  match x with
  | S754_zero _ => S754_zero s
  | S754_infinity _ => S754_infinity s
  | S754_finite _ m e => S754_finite s m e
  | S754_nan => S754_nan
  end.

(** * Properties *)

(** ** Bytes and little-endian integers *)

Lemma Z_of_byte_range (b : byte) : 0 <= Z_of_byte b < 256.
Proof.
  unfold Z_of_byte. pose proof (Byte.to_N_bounded b). lia.
Qed.

Lemma Z_of_byte_of_Z (x : Z) : Z_of_byte (byte_of_Z x) = x mod 256.
Proof.
  unfold Z_of_byte, byte_of_Z, wrap. change (2 ^ 8) with 256.
  pose proof (Z.mod_pos_bound x 256 ltac:(lia)) as Hx.
  destruct (Byte.of_N (Z.to_N (x mod 256))) as [c|] eqn:E.
  - apply Byte.to_of_N in E. rewrite E. lia.
  - apply Byte.of_N_None_iff in E. lia.
Qed.

Lemma byte_of_Z_of_byte (b : byte) : byte_of_Z (Z_of_byte b) = b.
Proof.
  unfold byte_of_Z, wrap. change (2 ^ 8) with 256.
  rewrite Z.mod_small by apply Z_of_byte_range.
  unfold Z_of_byte. rewrite N2Z.id, Byte.of_to_N. reflexivity.
Qed.

Lemma testbit_low_byte (i n : Z) :
  Z.testbit (i mod 256) n = (n <? 8) && Z.testbit i n.
Proof.
  change 256 with (2 ^ 8). apply Z.testbit_mod_pow2. lia.
Qed.

Lemma testbit_shifted_byte (i k n : Z) :
  0 <= k -> 0 <= n ->
  Z.testbit (Z.shiftl (Z.shiftr i k mod 256) k) n
  = (k <=? n) && (n <? k + 8) && Z.testbit i n.
Proof.
  intros Hk Hn. rewrite Z.shiftl_spec by lia.
  destruct (Z.leb_spec k n) as [Hle|Hlt].
  - rewrite testbit_low_byte, Z.shiftr_spec by lia.
    replace (n - k + k) with n by lia.
    destruct (Z.ltb_spec (n - k) 8), (Z.ltb_spec n (k + 8)); try lia; reflexivity.
  - rewrite Z.testbit_neg_r by lia. reflexivity.
Qed.

Lemma testbit_above (i w n : Z) :
  0 <= w -> 0 <= i < 2 ^ w -> w <= n -> Z.testbit i n = false.
Proof.
  intros Hw Hi Hn. rewrite <- (Z.mod_small i (2 ^ w)) by lia.
  rewrite Z.testbit_mod_pow2 by lia.
  destruct (Z.ltb_spec n w); [lia | reflexivity].
Qed.

Lemma Uint16_PutUint16 (i : Z) : 0 <= i < 2 ^ 16 -> Uint16 (PutUint16 i) = i.
Proof.
  intros Hi. unfold Uint16, PutUint16. rewrite !Z_of_byte_of_Z.
  apply Z.bits_inj'. intros n Hn.
  rewrite Z.lor_spec, testbit_low_byte, testbit_shifted_byte by lia.
  destruct (Z.ltb_spec n 8), (Z.leb_spec 8 n), (Z.ltb_spec n (8 + 8));
    cbn; try lia; rewrite ?orb_false_r; try reflexivity.
  symmetry. apply (testbit_above i 16); lia.
Qed.

Lemma Uint32_PutUint32 (i : Z) : 0 <= i < 2 ^ 32 -> Uint32 (PutUint32 i) = i.
Proof.
  intros Hi. unfold Uint32, PutUint32. rewrite !Z_of_byte_of_Z.
  apply Z.bits_inj'. intros n Hn.
  rewrite !Z.lor_spec, testbit_low_byte, !testbit_shifted_byte by lia.
  destruct (Z.ltb_spec n 8), (Z.leb_spec 8 n), (Z.ltb_spec n (8 + 8)),
    (Z.leb_spec 16 n), (Z.ltb_spec n (16 + 8)),
    (Z.leb_spec 24 n), (Z.ltb_spec n (24 + 8));
    cbn; try lia; rewrite ?orb_false_r; try reflexivity.
  symmetry. apply (testbit_above i 32); lia.
Qed.

(** ** What the buffer operations do to the unread bytes *)

Lemma Buffer_Next_app (d rest : Buffer) :
  Buffer_Next (len d) (d ++ rest) = (d, rest).
Proof.
  unfold Buffer_Next, len. rewrite Nat2Z.id.
  rewrite take_app_length, drop_app_length. reflexivity.
Qed.

Lemma Buffer_Next_short (n : Z) (b : Buffer) :
  len b < n -> Buffer_Next n b = (b, []).
Proof.
  unfold Buffer_Next, len. intros Hn.
  rewrite take_ge, drop_ge by lia. reflexivity.
Qed.

Lemma WriteUint16_run (i : Z) (b : Buffer) :
  WriteUint16 i b = (None, b ++ PutUint16 i).
Proof. reflexivity. Qed.

Lemma WriteUint32_run (i : Z) (b : Buffer) :
  WriteUint32 i b = (None, b ++ PutUint32 i).
Proof. reflexivity. Qed.

Lemma ReadUint16_run (i : Z) (rest : Buffer) :
  0 <= i < 2 ^ 16 -> ReadUint16 (PutUint16 i ++ rest) = ((i, None), rest).
Proof.
  intros Hi. unfold ReadUint16, bind.
  change (Buffer_Next 2) with (Buffer_Next (len (PutUint16 i))).
  rewrite Buffer_Next_app. cbn [len length PutUint16 Z.of_nat].
  cbn [Z.eqb Pos.of_succ_nat Pos.succ Pos.eqb negb]. unfold ret.
  fold (PutUint16 i). rewrite Uint16_PutUint16 by lia. reflexivity.
Qed.

Lemma ReadUint32_run (i : Z) (rest : Buffer) :
  0 <= i < 2 ^ 32 -> ReadUint32 (PutUint32 i ++ rest) = ((i, None), rest).
Proof.
  intros Hi. unfold ReadUint32, bind.
  change (Buffer_Next 4) with (Buffer_Next (len (PutUint32 i))).
  rewrite Buffer_Next_app. cbn [len length PutUint32 Z.of_nat].
  cbn [Z.eqb Pos.of_succ_nat Pos.succ Pos.eqb negb]. unfold ret.
  fold (PutUint32 i). rewrite Uint32_PutUint32 by lia. reflexivity.
Qed.

(** ** Scalars *)

Lemma ReadByte_run (c : byte) (rest : Buffer) :
  ReadByte (c :: rest) = ((c, None), rest).
Proof. reflexivity. Qed.

Lemma ReadBool_run (c : byte) (rest : Buffer) :
  ReadBool (c :: rest) = ((negb (Byte.eqb c x00), None), rest).
Proof. reflexivity. Qed.

(** C3: for every uint16, uint32, byte, bool and float32 value, decoding
    what the matching write appended to an empty buffer gives the value
    back, with no error and nothing left unread; a float32 comes back with
    the very bit pattern it had. *)
Theorem scalar_round_trip (u16 u32 : Z) (c : byte) (v : bool) (f : float32) :
  0 <= u16 < 2 ^ 16 -> 0 <= u32 < 2 ^ 32 -> 0 <= Float32bits f < 2 ^ 32 ->
  round_trips (WriteUint16 u16) ReadUint16 u16 /\
  round_trips (WriteUint32 u32) ReadUint32 u32 /\
  round_trips (WriteByte c) ReadByte c /\
  round_trips (WriteBool v) ReadBool v /\
  round_trips (WriteFloat32 f) ReadFloat32 f.
Proof.
  intros H16 H32 Hf. unfold round_trips. repeat split.
  - rewrite WriteUint16_run. cbn [snd app].
    rewrite <- (app_nil_r (PutUint16 u16)). apply ReadUint16_run, H16.
  - rewrite WriteUint32_run. cbn [snd app].
    rewrite <- (app_nil_r (PutUint32 u32)). apply ReadUint32_run, H32.
  - destruct v; reflexivity.
  - destruct f as [bits]. cbn [Float32bits] in Hf.
    unfold WriteFloat32, ReadFloat32, bind. cbn [Float32bits].
    rewrite WriteUint32_run. cbn [snd app].
    rewrite <- (app_nil_r (PutUint32 bits)).
    rewrite ReadUint32_run by exact Hf. reflexivity.
Qed.

(** The float32 of the witness is negative zero: sign bit set, all other
    bits clear. *)
Lemma scalar_round_trip_witness :
  round_trips (WriteUint16 65535) ReadUint16 65535 /\
  round_trips (WriteUint32 4294967295) ReadUint32 4294967295 /\
  round_trips (WriteByte xff) ReadByte xff /\
  round_trips (WriteBool true) ReadBool true /\
  round_trips (WriteFloat32 (Float32frombits 2147483648)) ReadFloat32
    (Float32frombits 2147483648).
Proof.
  apply (scalar_round_trip 65535 4294967295 xff true
           (Float32frombits 2147483648)); cbn; lia.
Defined.

(** C8: [WriteBool] appends exactly one byte, 0 for false and 1 for true;
    on a buffer of one byte [ReadBool] returns false for the byte 0 and
    true for every other byte. *)
Theorem bool_codec (b : Buffer) (v : bool) (c : byte) :
  WriteBool v b = (None, b ++ [if v then x01 else x00]) /\
  ReadBool [x00] = ((false, None), []) /\
  (c <> x00 -> ReadBool [c] = ((true, None), [])).
Proof.
  repeat split.
  intros Hc. rewrite ReadBool_run.
  destruct (Byte.eqb c x00) eqn:E; [|reflexivity].
  apply Byte.byte_dec_bl in E. contradiction.
Qed.

Lemma bool_codec_witness :
  WriteBool true [x07] = (None, [x07; x01]) /\
  ReadBool [x00] = ((false, None), []) /\
  ReadBool [xff] = ((true, None), []).
Proof.
  destruct (bool_codec [x07] true xff) as (Hw & H0 & H1).
  split; [exact Hw | split; [exact H0 | apply H1; discriminate]].
Defined.

(** ** Strings *)

Lemma IndexByte_lt (b : list byte) (d : byte) (i : nat) :
  IndexByte b d = Some i -> (i < length b)%nat.
Proof.
  revert i. induction b as [|c b IH]; intros i; cbn; [discriminate|].
  destruct (Byte.eqb c d).
  - intros [= <-]. lia.
  - destruct (IndexByte b d) as [j|]; [|discriminate].
    intros [= <-]. specialize (IH j eq_refl). lia.
Qed.

Lemma IndexByte_app (b rest : list byte) (d : byte) (i : nat) :
  IndexByte b d = Some i -> IndexByte (b ++ rest) d = Some i.
Proof.
  revert i. induction b as [|c b IH]; intros i; cbn; [discriminate|].
  destruct (Byte.eqb c d); [trivial|].
  destruct (IndexByte b d) as [j|]; [|discriminate].
  intros [= <-]. rewrite (IH j eq_refl). reflexivity.
Qed.

Lemma IndexByte_absent (b : list byte) (d : byte) :
  ~ In d b -> IndexByte b d = None.
Proof.
  induction b as [|c b IH]; cbn; [reflexivity|]. intros Hn.
  destruct (Byte.eqb c d) eqn:E.
  - apply Byte.byte_dec_bl in E. tauto.
  - rewrite IH by tauto. reflexivity.
Qed.

Lemma IndexByte_terminator (s rest : list byte) (d : byte) :
  ~ In d s -> IndexByte (s ++ d :: rest) d = Some (length s).
Proof.
  induction s as [|c s IH]; cbn; intros Hn.
  - rewrite Byte.byte_dec_lb by reflexivity. reflexivity.
  - destruct (Byte.eqb c d) eqn:E.
    + apply Byte.byte_dec_bl in E. tauto.
    + rewrite IH by tauto. reflexivity.
Qed.

Lemma WriteString_run (s : gostring) (b : Buffer) :
  WriteString s b = (None, b ++ s ++ [x00]).
Proof.
  unfold WriteString, bind, Buffer_WriteString, Buffer_WriteByte, ret.
  rewrite Z.eqb_refl. cbn [negb]. rewrite <- app_assoc. reflexivity.
Qed.

(** Reading a buffer whose first zero byte is at index [i]. *)
Lemma ReadString_found (b : Buffer) (i : nat) :
  IndexByte b x00 = Some i ->
  ReadString b = ((firstn i b, None), skipn (S i) b).
Proof.
  intros Hi. pose proof (IndexByte_lt _ _ _ Hi) as Hlt.
  unfold ReadString, bind, Buffer_ReadBytes. rewrite Hi. unfold ret, len.
  rewrite length_take, Nat.min_l by lia.
  replace (Z.to_nat (Z.of_nat (S i) - 1)) with i by lia.
  rewrite take_take, Nat.min_l by lia. reflexivity.
Qed.

Lemma ReadString_run (s : gostring) (rest : Buffer) :
  ~ In x00 s -> ReadString (s ++ x00 :: rest) = ((s, None), rest).
Proof.
  intros Hs. rewrite (ReadString_found _ (length s)).
  - rewrite take_app_length.
    replace (S (length s)) with (length s + 1)%nat by lia.
    rewrite <- drop_drop, drop_app_length. reflexivity.
  - apply IndexByte_terminator, Hs.
Qed.

(** C5: a string without a zero byte is written as its bytes followed by
    one zero byte, and reading that back returns the string with nothing
    left unread (it also leaves exactly what followed the terminator);
    when the buffer holds no zero byte, [ReadString] fails with [io.EOF],
    an error of the truncated-input kind. *)
Theorem string_round_trip (s : gostring) (b rest : Buffer) :
  (~ In x00 s ->
   WriteString s b = (None, b ++ s ++ [x00]) /\
   round_trips (WriteString s) ReadString s /\
   ReadString (s ++ x00 :: rest) = ((s, None), rest)) /\
  (~ In x00 b ->
   exists e, ReadString b = (([], Some e), []) /\ TruncatedInput e = true).
Proof.
  split.
  - intros Hs. split; [apply WriteString_run|]. split.
    + unfold round_trips. rewrite WriteString_run. cbn [fst snd app].
      split; [reflexivity|]. apply ReadString_run, Hs.
    + apply ReadString_run, Hs.
  - intros Hb. exists EOF. split; [|reflexivity].
    unfold ReadString, bind, Buffer_ReadBytes.
    rewrite IndexByte_absent by exact Hb. reflexivity.
Qed.

Lemma string_round_trip_witness :
  (WriteString [x68; x69] [x01] = (None, [x01; x68; x69; x00]) /\
   round_trips (WriteString [x68; x69]) ReadString [x68; x69] /\
   ReadString ([x68; x69] ++ x00 :: [x02]) = (([x68; x69], None), [x02])) /\
  (exists e, ReadString [x01] = (([], Some e), []) /\ TruncatedInput e = true).
Proof.
  destruct (string_round_trip [x68; x69] [x01] [x02]) as [Hok Hfail].
  split.
  - apply Hok. cbn. intros [H|[H|[]]]; discriminate H.
  - apply Hfail. cbn. intros [H|[]]; discriminate H.
Defined.

(** C9: when the first zero byte of [s] is at index [i], [WriteString]
    still reports no error and appends all of [s] and a terminator, and
    [ReadString] on those bytes reports no error, returns the [i] bytes
    before that zero, and leaves the bytes of [s] after index [i] (and the
    terminator) unread. *)
Theorem string_embedded_zero (s : gostring) (i : nat) :
  IndexByte s x00 = Some i ->
  WriteString s [] = (None, s ++ [x00]) /\
  ReadString (snd (WriteString s [])) =
    ((firstn i s, None), skipn (S i) s ++ [x00]).
Proof.
  intros Hi. pose proof (IndexByte_lt _ _ _ Hi) as Hlt.
  rewrite WriteString_run. cbn [snd app]. split; [reflexivity|].
  rewrite (ReadString_found _ i) by (apply IndexByte_app, Hi).
  rewrite take_app_le, drop_app_le by lia. reflexivity.
Qed.

Lemma string_embedded_zero_witness :
  WriteString [x61; x00; x62] [] = (None, [x61; x00; x62] ++ [x00]) /\
  ReadString (snd (WriteString [x61; x00; x62] [])) =
    ((firstn 1 [x61; x00; x62], None), skipn 2 [x61; x00; x62] ++ [x00]).
Proof. apply (string_embedded_zero [x61; x00; x62] 1). reflexivity. Defined.

(** ** Byte arrays *)

Lemma WriteByteArray_run (v : list byte) (b : Buffer) :
  WriteByteArray v b = (None, b ++ PutUint32 (wrap 32 (len v)) ++ v).
Proof.
  unfold WriteByteArray, bind. rewrite WriteUint32_run.
  unfold WriteByteArrayNoLength, bind, Buffer_Write, ret.
  rewrite Z.eqb_refl. cbn [negb]. rewrite <- app_assoc. reflexivity.
Qed.

(** What [ReadByteArray] does once the four bytes of the length are
    there: it never fails, and returns the bytes that remain when they are
    fewer than the length read. *)
Lemma ReadByteArray_header (l : Z) (rest : Buffer) :
  0 <= l < 2 ^ 32 ->
  ReadByteArray (PutUint32 l ++ rest) =
    ((Slice (firstn (Z.to_nat l) rest), None), skipn (Z.to_nat l) rest).
Proof.
  intros Hl. unfold ReadByteArray, bind.
  rewrite ReadUint32_run by exact Hl. reflexivity.
Qed.

Lemma ReadByteArray_run (v : list byte) (rest : Buffer) :
  len v < 2 ^ 32 ->
  ReadByteArray (PutUint32 (wrap 32 (len v)) ++ v ++ rest) =
    ((Slice v, None), rest).
Proof.
  intros Hv. unfold wrap. rewrite Z.mod_small by (unfold len in *; lia).
  rewrite ReadByteArray_header by (unfold len in *; lia).
  unfold len. rewrite Nat2Z.id, take_app_length, drop_app_length.
  reflexivity.
Qed.

(** A byte array shorter than 2^32 bytes, the empty one included, is
    written as its length on four bytes followed by its bytes, and read
    back unchanged. *)
Theorem byte_array_round_trip (v : list byte) :
  len v < 2 ^ 32 ->
  WriteByteArray v [] = (None, PutUint32 (len v) ++ v) /\
  round_trips (WriteByteArray v) ReadByteArray (Slice v).
Proof.
  intros Hv. unfold round_trips. rewrite WriteByteArray_run.
  cbn [fst snd app]. split; [|split; [reflexivity|]].
  - unfold wrap. rewrite Z.mod_small by (unfold len in *; lia). reflexivity.
  - rewrite <- (app_nil_r v) at 2. apply ReadByteArray_run, Hv.
Qed.

Lemma byte_array_round_trip_witness :
  WriteByteArray [] [] = (None, PutUint32 (len (@nil byte)) ++ []) /\
  round_trips (WriteByteArray []) ReadByteArray (Slice []).
Proof. apply (byte_array_round_trip []). reflexivity. Defined.

(** ** Arrays *)

Lemma WriteStrings_range_run (v : list gostring) (b : Buffer) :
  WriteStrings_range v b = (None, b ++ strings_bytes v).
Proof.
  revert b. induction v as [|s v IH]; intros b; cbn.
  - unfold ret. rewrite app_nil_r. reflexivity.
  - unfold bind. rewrite WriteString_run, IH.
    unfold strings_bytes. rewrite <- !app_assoc. reflexivity.
Qed.

Lemma WriteStrings_run (v : list gostring) (b : Buffer) :
  WriteStrings v b =
    (None, b ++ PutUint16 (wrap 16 (len v)) ++ strings_bytes v).
Proof.
  unfold WriteStrings, bind. rewrite WriteUint16_run, WriteStrings_range_run.
  rewrite <- app_assoc. reflexivity.
Qed.

Lemma WriteByteArrayArray_range_run (v : list (list byte)) (b : Buffer) :
  WriteByteArrayArray_range v b = (None, b ++ byte_arrays_bytes v).
Proof.
  revert b. induction v as [|d v IH]; intros b; cbn.
  - unfold ret. rewrite app_nil_r. reflexivity.
  - unfold bind. rewrite WriteByteArray_run, IH.
    unfold byte_arrays_bytes. rewrite <- !app_assoc. reflexivity.
Qed.

Lemma WriteByteArrayArray_run (v : list (list byte)) (b : Buffer) :
  WriteByteArrayArray v b =
    (None, b ++ PutUint16 (wrap 16 (len v)) ++ byte_arrays_bytes v).
Proof.
  unfold WriteByteArrayArray, bind.
  rewrite WriteUint16_run, WriteByteArrayArray_range_run.
  rewrite <- app_assoc. reflexivity.
Qed.

(** The loop fills the slice made before it from index [i] on. *)
Lemma ReadStrings_loop_run (l : list gostring) :
  forall (i : nat) (done : list gostring) (rest : Buffer),
    Forall (fun s => ~ In x00 s) l -> length done = i ->
    ReadStrings_loop (length l) i (done ++ replicate (length l) [])
                     (strings_bytes l ++ rest)
    = ((Slice (done ++ l), None), rest).
Proof.
  induction l as [|s l IH]; intros i done rest Hl Hi.
  - cbn. rewrite !app_nil_r. reflexivity.
  - inversion Hl as [|? ? Hs Hl']; subst.
    cbn [length ReadStrings_loop replicate]. unfold bind.
    unfold strings_bytes. cbn [map concat]. rewrite <- !app_assoc.
    cbn [app]. rewrite ReadString_run by exact Hs.
    rewrite insert_app_r_alt, Nat.sub_diag by lia. cbn [insert list_insert].
    replace (done ++ s :: replicate (length l) [])
      with ((done ++ [s]) ++ replicate (length l) [])
      by (rewrite <- app_assoc; reflexivity).
    fold (strings_bytes l).
    rewrite (IH (S (length done)) (done ++ [s]) rest Hl').
    + rewrite <- app_assoc. reflexivity.
    + rewrite length_app. cbn. lia.
Qed.

Lemma ReadByteArrayArray_loop_run (l : list (list byte)) :
  forall (i : nat) (done : list (slice byte)) (rest : Buffer),
    Forall (fun d => len d < 2 ^ 32) l -> length done = i ->
    ReadByteArrayArray_loop (length l) i (done ++ replicate (length l) Nil)
                            (byte_arrays_bytes l ++ rest)
    = ((Slice (done ++ map Slice l), None), rest).
Proof.
  induction l as [|d l IH]; intros i done rest Hl Hi.
  - cbn. rewrite !app_nil_r. reflexivity.
  - inversion Hl as [|? ? Hd Hl']; subst.
    cbn [length ReadByteArrayArray_loop replicate]. unfold bind.
    unfold byte_arrays_bytes. cbn [map concat]. rewrite <- !app_assoc.
    rewrite ReadByteArray_run by exact Hd.
    rewrite insert_app_r_alt, Nat.sub_diag by lia. cbn [insert list_insert].
    replace (done ++ Slice d :: replicate (length l) Nil)
      with ((done ++ [Slice d]) ++ replicate (length l) Nil)
      by (rewrite <- app_assoc; reflexivity).
    fold (byte_arrays_bytes l).
    rewrite (IH (S (length done)) (done ++ [Slice d]) rest Hl').
    + rewrite <- app_assoc. reflexivity.
    + rewrite length_app. cbn. lia.
Qed.

(** C6, as the code has it: a sequence of fewer than 65536 strings without
    zero bytes, and a sequence of fewer than 65536 byte arrays each
    shorter than 2^32 bytes, is written as its count on two bytes followed
    by the elements in order, and read back with the same length, order
    and contents; an empty sequence is written as the two bytes of a zero
    count and nothing else. *)
Theorem array_round_trip (ss : list gostring) (ds : list (list byte)) :
  len ss < 2 ^ 16 -> Forall (fun s => ~ In x00 s) ss ->
  len ds < 2 ^ 16 -> Forall (fun d => len d < 2 ^ 32) ds ->
  (WriteStrings ss [] = (None, PutUint16 (len ss) ++ strings_bytes ss) /\
   round_trips (WriteStrings ss) ReadStrings (Slice ss)) /\
  (WriteByteArrayArray ds [] =
     (None, PutUint16 (len ds) ++ byte_arrays_bytes ds) /\
   round_trips (WriteByteArrayArray ds) ReadByteArrayArray
     (Slice (map Slice ds))) /\
  WriteStrings [] [] = (None, [x00; x00]) /\
  WriteByteArrayArray [] [] = (None, [x00; x00]).
Proof.
  intros Hss Hzero Hds Hlen.
  assert (Hws : wrap 16 (len ss) = len ss)
    by (unfold wrap; apply Z.mod_small; unfold len in *; lia).
  assert (Hwd : wrap 16 (len ds) = len ds)
    by (unfold wrap; apply Z.mod_small; unfold len in *; lia).
  split; [|split; [|split; reflexivity]].
  - rewrite WriteStrings_run, Hws. cbn [app]. split; [reflexivity|].
    unfold round_trips. rewrite WriteStrings_run, Hws. cbn [fst snd app].
    split; [reflexivity|]. unfold ReadStrings, bind.
    rewrite ReadUint16_run by (unfold len in *; lia).
    unfold len. rewrite Nat2Z.id.
    rewrite <- (app_nil_r (strings_bytes ss)).
    apply (ReadStrings_loop_run ss 0 [] [] Hzero eq_refl).
  - rewrite WriteByteArrayArray_run, Hwd. cbn [app]. split; [reflexivity|].
    unfold round_trips. rewrite WriteByteArrayArray_run, Hwd.
    cbn [fst snd app]. split; [reflexivity|].
    unfold ReadByteArrayArray, bind.
    rewrite ReadUint16_run by (unfold len in *; lia).
    unfold len. rewrite Nat2Z.id.
    rewrite <- (app_nil_r (byte_arrays_bytes ds)).
    apply (ReadByteArrayArray_loop_run ds 0 [] [] Hlen eq_refl).
Qed.

(** Duplicates and empty elements are among the elements of the witness. *)
Lemma array_round_trip_witness :
  (WriteStrings [[x61]; []; [x61]] [] =
     (None, PutUint16 3 ++ strings_bytes [[x61]; []; [x61]]) /\
   round_trips (WriteStrings [[x61]; []; [x61]]) ReadStrings
     (Slice [[x61]; []; [x61]])) /\
  (WriteByteArrayArray [[x00; x01]; []; [x00; x01]] [] =
     (None, PutUint16 3 ++ byte_arrays_bytes [[x00; x01]; []; [x00; x01]]) /\
   round_trips (WriteByteArrayArray [[x00; x01]; []; [x00; x01]])
     ReadByteArrayArray (Slice (map Slice [[x00; x01]; []; [x00; x01]]))) /\
  WriteStrings [] [] = (None, [x00; x00]) /\
  WriteByteArrayArray [] [] = (None, [x00; x00]).
Proof.
  apply (array_round_trip [[x61]; []; [x61]] [[x00; x01]; []; [x00; x01]]).
  - reflexivity.
  - repeat (constructor; [cbn; intuition discriminate|]). constructor.
  - reflexivity.
  - repeat (constructor; [reflexivity|]). constructor.
Defined.

Lemma count_65536_wraps {A : Type} (x : A) :
  wrap 16 (len (replicate (Z.to_nat 65536) x)) = 0.
Proof.
  unfold len. rewrite length_replicate, Z2Nat.id by lia. reflexivity.
Qed.

(** A sequence whose length is a multiple of 65536 is read back empty. *)
Lemma ReadStrings_count_wraps (v : list gostring) :
  wrap 16 (len v) = 0 ->
  fst (ReadStrings (snd (WriteStrings v []))) = (Slice [], None).
Proof.
  intros Hv. rewrite WriteStrings_run, Hv. cbn [snd app].
  unfold ReadStrings, bind. rewrite ReadUint16_run by lia. reflexivity.
Qed.

Lemma ReadByteArrayArray_count_wraps (v : list (list byte)) :
  wrap 16 (len v) = 0 ->
  fst (ReadByteArrayArray (snd (WriteByteArrayArray v []))) = (Slice [], None).
Proof.
  intros Hv. rewrite WriteByteArrayArray_run, Hv. cbn [snd app].
  unfold ReadByteArrayArray, bind. rewrite ReadUint16_run by lia.
  reflexivity.
Qed.

(** C6 as stated fails: the count is cut to sixteen bits, so a sequence of
    65536 empty strings (or empty byte arrays) is written with a zero
    count and read back as an empty sequence, its elements left unread;
    and a string with a zero byte inside comes back cut at that byte. *)
Lemma array_round_trip_counterexample :
  len (replicate (Z.to_nat 65536) ([] : gostring)) = 65536 /\
  fst (ReadStrings (snd (WriteStrings (replicate (Z.to_nat 65536) []) [])))
    = (Slice [], None) /\
  fst (ReadByteArrayArray
         (snd (WriteByteArrayArray (replicate (Z.to_nat 65536) []) [])))
    = (Slice [], None) /\
  ReadStrings (snd (WriteStrings [[x61; x00; x62]] []))
    = ((Slice [[x61]], None), [x62; x00]).
Proof.
  split; [unfold len; rewrite length_replicate; apply Z2Nat.id; lia|].
  split; [|split].
  - apply ReadStrings_count_wraps, count_65536_wraps.
  - apply ReadByteArrayArray_count_wraps, count_65536_wraps.
  - vm_compute. reflexivity.
Qed.

(** A failing loop returns the nil slice. *)
Lemma ReadStrings_loop_failure (n : nat) :
  forall (i : nat) (v : list gostring) (b : Buffer) (e : error),
    snd (fst (ReadStrings_loop n i v b)) = Some e ->
    fst (fst (ReadStrings_loop n i v b)) = Nil.
Proof.
  induction n as [|n IH]; intros i v b e; cbn [ReadStrings_loop].
  - discriminate.
  - unfold bind. destruct (ReadString b) as [[s [e'|]] b1].
    + reflexivity.
    + apply IH.
Qed.

Lemma ReadByteArrayArray_loop_failure (n : nat) :
  forall (i : nat) (v : list (slice byte)) (b : Buffer) (e : error),
    snd (fst (ReadByteArrayArray_loop n i v b)) = Some e ->
    fst (fst (ReadByteArrayArray_loop n i v b)) = Nil.
Proof.
  induction n as [|n IH]; intros i v b e; cbn [ReadByteArrayArray_loop].
  - discriminate.
  - unfold bind. destruct (ReadByteArray b) as [[s [e'|]] b1].
    + reflexivity.
    + apply IH.
Qed.

(** C10: when [ReadStrings] or [ReadByteArrayArray] returns an error,
    whether from the count or from an element, the slice it returns with
    it is nil, never the elements read so far. *)
Theorem array_read_failure_nil (b : Buffer) (e : error) :
  (snd (fst (ReadStrings b)) = Some e -> fst (fst (ReadStrings b)) = Nil) /\
  (snd (fst (ReadByteArrayArray b)) = Some e ->
   fst (fst (ReadByteArrayArray b)) = Nil).
Proof.
  split.
  - unfold ReadStrings, bind. destruct (ReadUint16 b) as [[c [e'|]] b1].
    + reflexivity.
    + apply ReadStrings_loop_failure.
  - unfold ReadByteArrayArray, bind.
    destruct (ReadUint16 b) as [[c [e'|]] b1].
    + reflexivity.
    + apply ReadByteArrayArray_loop_failure.
Qed.

(** In the witness the first of two announced strings is read before the
    second is found unterminated, and the first of two byte arrays before
    the length of the second is found cut short. *)
Lemma array_read_failure_nil_witness :
  fst (fst (ReadStrings [x02; x00; x61; x00; x62])) = Nil /\
  fst (fst (ReadByteArrayArray
              [x02; x00; x01; x00; x00; x00; xaa; x01; x00])) = Nil.
Proof.
  split.
  - apply (array_read_failure_nil [x02; x00; x61; x00; x62] EOF).
    reflexivity.
  - apply (array_read_failure_nil
             [x02; x00; x01; x00; x00; x00; xaa; x01; x00]
             (ErrBytesIncorrect 2 "Uint32")).
    reflexivity.
Defined.

(** ** Truncated input *)

(** The reads of a fixed number of bytes, and the read of a byte array of
    known length, fail with an error of the truncated-input kind on every
    buffer that is too short, and leave nothing unread. *)
Theorem fixed_width_reads_truncated (b : Buffer) (l : Z) :
  (len b < 1 -> ReadByte b = ((x00, Some (ErrBytesIncorrect (len b) "byte")), [])) /\
  (len b < 1 -> ReadBool b = ((false, Some (ErrBytesIncorrect (len b) "bool")), [])) /\
  (len b < 2 -> ReadUint16 b = ((0, Some (ErrBytesIncorrect (len b) "Uint16")), [])) /\
  (len b < 4 -> ReadUint32 b = ((0, Some (ErrBytesIncorrect (len b) "Uint32")), [])) /\
  (len b < 4 ->
   ReadByteArray b = ((Nil, Some (ErrBytesIncorrect (len b) "Uint32")), [])) /\
  (len b < l ->
   ReadByteArrayNoLength l b = ((Nil, Some (ErrReadExpected (len b) l)), [])).
Proof.
  assert (Hne : forall n, len b < n -> negb (len b =? n) = true)
    by (intros n Hn; destruct (Z.eqb_spec (len b) n); [lia | reflexivity]).
  repeat split; intros Hb.
  - unfold ReadByte, bind. rewrite Buffer_Next_short, Hne by lia. reflexivity.
  - unfold ReadBool, bind. rewrite Buffer_Next_short, Hne by lia. reflexivity.
  - unfold ReadUint16, bind. rewrite Buffer_Next_short, Hne by lia. reflexivity.
  - unfold ReadUint32, bind. rewrite Buffer_Next_short, Hne by lia. reflexivity.
  - unfold ReadByteArray, ReadUint32, bind.
    rewrite Buffer_Next_short, Hne by lia. reflexivity.
  - unfold ReadByteArrayNoLength, bind.
    rewrite Buffer_Next_short, Hne by lia. reflexivity.
Qed.

Lemma fixed_width_reads_truncated_witness :
  ReadUint32 [x01; x02; x03] =
    ((0, Some (ErrBytesIncorrect 3 "Uint32")), []) /\
  ReadByteArrayNoLength 5 [x01; x02] =
    ((Nil, Some (ErrReadExpected 2 5)), []).
Proof.
  split.
  - apply (fixed_width_reads_truncated [x01; x02; x03] 0). reflexivity.
  - apply (fixed_width_reads_truncated [x01; x02] 5). reflexivity.
Defined.

(** C1 fails for [ReadByteArray]: on a buffer that announces five bytes
    and holds two, it returns the two bytes with a nil error, where
    [ReadByteArrayNoLength] asked for five bytes reports the short read. *)
Theorem ReadByteArray_short_read :
  ReadByteArray [x05; x00; x00; x00; x01; x02] =
    ((Slice [x01; x02], None), []) /\
  ReadByteArrayNoLength 5 [x01; x02] =
    ((Nil, Some (ErrReadExpected 2 5)), []).
Proof. split; reflexivity. Qed.

(** More generally [ReadByteArray] never fails once it has read a length,
    whatever follows. *)
Lemma ReadByteArray_never_short (l : Z) (rest : Buffer) :
  0 <= l < 2 ^ 32 ->
  snd (fst (ReadByteArray (PutUint32 l ++ rest))) = None /\
  len (elems (fst (fst (ReadByteArray (PutUint32 l ++ rest)))))
    = Z.min l (len rest).
Proof.
  intros Hl. rewrite ReadByteArray_header by exact Hl. cbn [fst snd elems].
  split; [reflexivity|]. unfold len. rewrite length_take. lia.
Qed.

(** ** Full timestamps *)

(** C7 fails for [ReadTime]: a byte array of length zero is not a valid
    encoding of a Time, [GobDecode] says so, and [ReadTime] returns the
    zero Time with a nil error. *)
Theorem ReadTime_drops_decode_error :
  snd (Time_GobDecode Time_zero []) =
    Some (ErrTime "Time.UnmarshalBinary: no data") /\
  ReadTime [x00; x00; x00; x00] = ((Time_zero, None), []).
Proof. split; reflexivity. Qed.

(** Whatever [GobDecode] answers, [ReadTime] returns a nil error once the
    length of the byte array has been read. *)
Lemma ReadTime_error_only_from_length (l : Z) (rest : Buffer) :
  0 <= l < 2 ^ 32 -> snd (fst (ReadTime (PutUint32 l ++ rest))) = None.
Proof.
  intros Hl. unfold ReadTime, bind.
  rewrite ReadByteArray_header by exact Hl. reflexivity.
Qed.

(** [WriteTime], in contrast, returns the error of [GobEncode]. *)
Lemma WriteTime_returns_encode_error
  (GobEncode : Time -> list byte * option error) (t : Time) (b : Buffer)
  (e : error) :
  snd (GobEncode t) = Some e -> WriteTime GobEncode t b = (Some e, b).
Proof.
  intros He. unfold WriteTime. destruct (GobEncode t) as [d err].
  cbn [snd] in He. subst err. reflexivity.
Qed.

(** [ReadMarshaller] returns what [UnmarshalBinary] answers. *)
Lemma ReadMarshaller_returns_decode_error
  (UnmarshalBinary : list byte -> option error) (v : list byte)
  (rest : Buffer) :
  len v < 2 ^ 32 ->
  ReadMarshaller UnmarshalBinary (PutUint32 (wrap 32 (len v)) ++ v ++ rest)
    = (UnmarshalBinary v, rest).
Proof.
  intros Hv. unfold ReadMarshaller, bind.
  rewrite ReadByteArray_run by exact Hv. reflexivity.
Qed.

(** ** float64 arithmetic *)

(** What [Duration.Minutes] needs of binary64: the conversion of an
    integer below 2^53 is exact, the quotient of the nanoseconds left in
    the minute by the nanoseconds of a minute stays at or below
    [1 - 2^-25] when 2000 ns or more are missing to the minute, and adding
    such a fraction to a whole number below 2^28 does not reach the next
    whole number. *)

(** [digits2_pos p] is the number of bits of [p]. *)
Lemma digits2_pos_spec (p : positive) :
  2 ^ (Zpos (digits2_pos p) - 1) <= Zpos p < 2 ^ Zpos (digits2_pos p).
Proof.
  induction p as [p IH|p IH|]; cbn [digits2_pos].
  - rewrite Pos2Z.inj_succ, (Pos2Z.inj_xI p).
    replace (Z.succ (Zpos (digits2_pos p)) - 1)
      with (Z.succ (Zpos (digits2_pos p) - 1)) by lia.
    do 2 (rewrite Z.pow_succ_r by lia). lia.
  - rewrite Pos2Z.inj_succ, (Pos2Z.inj_xO p).
    replace (Z.succ (Zpos (digits2_pos p)) - 1)
      with (Z.succ (Zpos (digits2_pos p) - 1)) by lia.
    do 2 (rewrite Z.pow_succ_r by lia). lia.
  - cbn. lia.
Qed.

Lemma digits2_pos_unique (p : positive) (k : Z) :
  2 ^ (k - 1) <= Zpos p < 2 ^ k -> Zpos (digits2_pos p) = k.
Proof.
  intros Hk. pose proof (digits2_pos_spec p) as Hd.
  destruct (Z.lt_trichotomy (Zpos (digits2_pos p)) k) as [Hlt|[Heq|Hgt]];
    [|exact Heq|].
  - assert (2 ^ Zpos (digits2_pos p) <= 2 ^ (k - 1))
      by (apply Z.pow_le_mono_r; lia). lia.
  - assert (0 <= k) by (destruct (Z.le_gt_cases 0 k); [assumption|];
      rewrite (Z.pow_neg_r 2 k) in Hk by lia; lia).
    assert (2 ^ k <= 2 ^ (Zpos (digits2_pos p) - 1))
      by (apply Z.pow_le_mono_r; lia). lia.
Qed.

(** The left shift of [shl_align]. *)
Lemma iter_xO_spec (m d : positive) :
  Zpos (Pos.iter xO m d) = Zpos m * 2 ^ Zpos d.
Proof.
  rewrite <- Z.shiftl_mul_pow2 by lia. cbn [Z.shiftl].
  apply Pos.iter_swap_gen. reflexivity.
Qed.

(** The iteration of [shr] is an iteration over [nat]. *)
Lemma iter_pos_nat {A : Type} (f : A -> A) (p : positive) :
  forall x : A, SpecFloat.iter_pos f p x = Nat.iter (Pos.to_nat p) f x.
Proof.
  induction p as [p IH|p IH|]; intros x; cbn [SpecFloat.iter_pos].
  - rewrite !IH, Pos2Nat.inj_xI. cbn [Nat.mul].
    rewrite Nat.add_0_r, <- Nat.iter_add. rewrite <- Nat.iter_succ_r.
    reflexivity.
  - rewrite !IH, Pos2Nat.inj_xO. cbn [Nat.mul].
    rewrite Nat.add_0_r, <- Nat.iter_add. reflexivity.
  - reflexivity.
Qed.

(** One shift to the right: the mantissa is halved, the bit shifted out
    becomes the round bit, the old round bit joins the sticky bit. *)
Lemma shr_1_spec (m : Z) (r s : bool) :
  0 <= m ->
  shr_1 (Build_shr_record m r s) = Build_shr_record (m / 2) (Z.odd m) (r || s).
Proof.
  intros Hm. rewrite <- Z.div2_div.
  destruct m as [|[p|p|]|p]; try lia; reflexivity.
Qed.

Lemma iter_shr_1_spec (n : nat) (m : Z) (r s : bool) :
  0 <= m ->
  shr_m (Nat.iter (S n) shr_1 (Build_shr_record m r s)) = m / 2 ^ Z.of_nat (S n) /\
  shr_r (Nat.iter (S n) shr_1 (Build_shr_record m r s)) = Z.testbit m (Z.of_nat n).
Proof.
  intros Hm. induction n as [|n [IHm IHr]].
  - rewrite Nat.iter_succ. cbn [Nat.iter nat_rect].
    rewrite shr_1_spec by lia. cbn [shr_m shr_r].
    split; [reflexivity|]. symmetry. apply Z.bit0_odd.
  - remember (S n) as k. rewrite Nat.iter_succ.
    destruct (Nat.iter k shr_1 (Build_shr_record m r s)) as [mk rk sk].
    cbn [shr_m shr_r] in *. subst mk.
    rewrite shr_1_spec by (apply Z.div_pos; lia). cbn [shr_m shr_r].
    split.
    + rewrite Z.div_div; [|apply Z.pow_nonzero; lia|lia].
      rewrite (Nat2Z.inj_succ k). rewrite Z.pow_succ_r by lia. f_equal; lia.
    + rewrite <- Z.bit0_odd, <- Z.shiftr_div_pow2, Z.shiftr_spec by lia.
      f_equal; lia.
Qed.

Lemma testbit_mod_nonzero (m n : Z) :
  0 < n -> Z.testbit m (n - 1) = true -> m mod 2 ^ n <> 0.
Proof.
  intros Hn Hb H0.
  assert (H : Z.testbit (m mod 2 ^ n) (n - 1) = true).
  { rewrite Z.testbit_mod_pow2 by lia. rewrite Hb.
    destruct (Z.ltb_spec (n - 1) n); [reflexivity | lia]. }
  rewrite H0, Z.testbit_0_l in H. discriminate.
Qed.

(** A shift to the right by [n] places divides the mantissa by [2 ^ n];
    the round bit is set only if a non-zero bit was shifted out (or, with
    no shift, if it was set before). *)
Lemma shr_spec (m e n : Z) (r s : bool) :
  0 <= m -> 0 <= n ->
  exists rec : shr_record,
    shr (Build_shr_record m r s) e n = (rec, e + n) /\
    shr_m rec = m / 2 ^ n /\
    (shr_r rec = true -> (n = 0 /\ r = true) \/ m mod 2 ^ n <> 0).
Proof.
  intros Hm Hn. destruct n as [|p|p]; [| |lia].
  - exists (Build_shr_record m r s). cbn [shr shr_m shr_r].
    rewrite Z.add_0_r, Z.pow_0_r, Z.div_1_r. auto.
  - exists (SpecFloat.iter_pos shr_1 p (Build_shr_record m r s)).
    cbn [shr]. split; [reflexivity|].
    rewrite iter_pos_nat.
    destruct (Pos2Nat.is_succ p) as [k Hk]. rewrite Hk.
    destruct (iter_shr_1_spec k m r s Hm) as [Hsm Hsr].
    assert (Hp : Z.of_nat (S k) = Zpos p) by lia.
    rewrite Hsm, Hsr, Hp. split; [reflexivity|].
    intros Hb. right. apply testbit_mod_nonzero; [lia|].
    replace (Zpos p - 1) with (Z.of_nat k) by lia. exact Hb.
Qed.

Lemma shr_fexp_spec (m : positive) (e : Z) (l : location) :
  53 <= Zpos (digits2_pos m) -> -1074 <= e ->
  exists rec : shr_record,
    shr_fexp 53 1024 (Zpos m) e l = (rec, e + (Zpos (digits2_pos m) - 53)) /\
    shr_m rec = Zpos m / 2 ^ (Zpos (digits2_pos m) - 53) /\
    (shr_r rec = true -> l = loc_Exact ->
     Zpos m mod 2 ^ (Zpos (digits2_pos m) - 53) <> 0).
Proof.
  intros Hd He. unfold shr_fexp. cbn [Zdigits2].
  replace (fexp 53 1024 (Zpos (digits2_pos m) + e) - e)
    with (Zpos (digits2_pos m) - 53)
    by (unfold fexp, emin; lia).
  assert (Hrec : exists r s, shr_record_of_loc (Zpos m) l
                             = Build_shr_record (Zpos m) r s /\
                             (r = true -> l <> loc_Exact)).
  { destruct l as [|[| |]]; cbn; eexists _, _; (split; [reflexivity|]);
      congruence. }
  destruct Hrec as (r & s & -> & Hr).
  destruct (shr_spec (Zpos m) e (Zpos (digits2_pos m) - 53) r s)
    as (rec & Hshr & Hsm & Hsr); [lia|lia|].
  exists rec. split; [exact Hshr|]. split; [exact Hsm|].
  intros Hb Hl. destruct (Hsr Hb) as [[_ Hr']|Hnz]; [|exact Hnz].
  exfalso. exact (Hr Hr' Hl).
Qed.

Lemma round_nearest_even_spec (rec : shr_record) :
  round_nearest_even (shr_m rec) (loc_of_shr_record rec) = shr_m rec \/
  (round_nearest_even (shr_m rec) (loc_of_shr_record rec) = shr_m rec + 1 /\
   shr_r rec = true).
Proof.
  destruct rec as [m [|] [|]]; cbn; try destruct (Z.even m); auto.
Qed.

(** The leading 53 bits of a mantissa of at least 53 bits. *)
Lemma leading_bits_range (m : positive) :
  53 <= Zpos (digits2_pos m) ->
  2 ^ 52 <= Zpos m / 2 ^ (Zpos (digits2_pos m) - 53) < 2 ^ 53.
Proof.
  intros Hd. pose proof (digits2_pos_spec m) as [Hlo Hhi].
  set (n := Zpos (digits2_pos m) - 53) in *.
  assert (Hn : 0 < 2 ^ n) by (apply Z.pow_pos_nonneg; lia).
  split.
  - apply Z.div_le_lower_bound; [exact Hn|].
    rewrite <- Z.pow_add_r by lia.
    replace (n + 52) with (Zpos (digits2_pos m) - 1) by lia. exact Hlo.
  - apply Z.div_lt_upper_bound; [exact Hn|].
    rewrite <- Z.pow_add_r by lia.
    replace (n + 53) with (Zpos (digits2_pos m)) by lia. exact Hhi.
Qed.

(** Rounding a positive mantissa of at least 53 bits to binary64: the
    leading 53 bits, or one more than that; in the second case, when the
    mantissa was exact, a non-zero bit was dropped.  A carry into a 54th
    bit moves the exponent up by one. *)
Lemma binary_round_aux_spec (mx : positive) (ex : Z) (lx : location) :
  53 <= Zpos (digits2_pos mx) -> -1074 <= ex ->
  ex + Zpos (digits2_pos mx) <= 1000 ->
  exists (m' : positive) (e' mr : Z),
    binary_round_aux 53 1024 false (Zpos mx) ex lx = S754_finite false m' e' /\
    (mr = Zpos mx / 2 ^ (Zpos (digits2_pos mx) - 53) \/
     (mr = Zpos mx / 2 ^ (Zpos (digits2_pos mx) - 53) + 1 /\
      (lx = loc_Exact -> Zpos mx mod 2 ^ (Zpos (digits2_pos mx) - 53) <> 0))) /\
    ((mr < 2 ^ 53 /\ e' = ex + (Zpos (digits2_pos mx) - 53) /\ Zpos m' = mr) \/
     (mr = 2 ^ 53 /\ e' = ex + (Zpos (digits2_pos mx) - 53) + 1 /\
      Zpos m' = 2 ^ 52)).
Proof.
  intros Hd He Hmax.
  destruct (shr_fexp_spec mx ex lx Hd He) as (rec & Hshr & Hsm & Hsr).
  pose proof (leading_bits_range mx Hd) as Hhi.
  set (n := Zpos (digits2_pos mx) - 53) in *.
  unfold binary_round_aux. rewrite Hshr.
  set (mr := round_nearest_even (shr_m rec) (loc_of_shr_record rec)).
  assert (Hmr : mr = Zpos mx / 2 ^ n \/
                (mr = Zpos mx / 2 ^ n + 1 /\
                 (lx = loc_Exact -> Zpos mx mod 2 ^ n <> 0))).
  { destruct (round_nearest_even_spec rec) as [H|[H Hr]]; fold mr in H;
      rewrite Hsm in H; [left; exact H|right; split; [exact H|]].
    intros Hl. exact (Hsr Hr Hl). }
  assert (Hrange : 2 ^ 52 <= mr <= 2 ^ 53) by (destruct Hmr as [->|[-> _]]; lia).
  destruct mr as [|q|q] eqn:Eq; [lia| |lia].
  destruct (Z.eq_dec (Zpos q) (2 ^ 53)) as [Hcarry|Hnocarry].
  - assert (Hdq : Zpos (digits2_pos q) = 54)
      by (apply digits2_pos_unique; rewrite Hcarry; cbn; lia).
    destruct (shr_fexp_spec q (ex + n) loc_Exact) as (rec2 & Hshr2 & Hsm2 & _);
      [lia|lia|].
    rewrite Hshr2, Hsm2, Hdq, Hcarry.
    change (2 ^ 53 / 2 ^ (54 - 53)) with (Zpos 4503599627370496).
    replace (ex + n + (54 - 53) <=? 1024 - 53) with true
      by (symmetry; apply Z.leb_le; lia).
    exists 4503599627370496%positive, (ex + n + 1), (Zpos q).
    split; [f_equal; lia|]. split; [exact Hmr|]. right.
    split; [exact Hcarry|]. split; reflexivity.
  - assert (Hdq : Zpos (digits2_pos q) = 53)
      by (apply digits2_pos_unique; cbn; lia).
    destruct (shr_fexp_spec q (ex + n) loc_Exact) as (rec2 & Hshr2 & Hsm2 & _);
      [lia|lia|].
    rewrite Hshr2, Hsm2, Hdq. rewrite Z.sub_diag, Z.pow_0_r, Z.div_1_r.
    replace (ex + n + 0 <=? 1024 - 53) with true
      by (symmetry; apply Z.leb_le; lia).
    exists q, (ex + n), (Zpos q).
    split; [f_equal; lia|]. split; [exact Hmr|]. left.
    split; [lia|]. split; reflexivity.
Qed.

Lemma pow2_digits_le (z : positive) (k : Z) :
  0 <= k -> Zpos z < 2 ^ k -> Zpos (digits2_pos z) <= k.
Proof.
  intros Hk Hz. pose proof (digits2_pos_spec z) as [Hlo _].
  destruct (Z.le_gt_cases (Zpos (digits2_pos z)) k) as [H|H]; [exact H|].
  assert (2 ^ k <= 2 ^ (Zpos (digits2_pos z) - 1))
    by (apply Z.pow_le_mono_r; lia). lia.
Qed.

(** [float64(z)] is exact for a positive integer below 2^53: the mantissa
    is [z] moved up to 53 bits. *)
Lemma float64_of_int_exact (z : positive) :
  Zpos z < 2 ^ 53 ->
  exists m : positive,
    float64_of_int (Zpos z) = S754_finite false m (Zpos (digits2_pos z) - 53) /\
    Zpos m = Zpos z * 2 ^ (53 - Zpos (digits2_pos z)) /\
    Zpos (digits2_pos m) = 53.
Proof.
  intros Hz. pose proof (pow2_digits_le z 53 ltac:(lia) Hz) as Hd.
  pose proof (digits2_pos_spec z) as [Hlo Hhi].
  set (d := Zpos (digits2_pos z)) in *.
  assert (Hshl : exists m : positive,
             shl_align z 0 (fexp 53 1024 (d + 0)) = (m, d - 53) /\
             Zpos m = Zpos z * 2 ^ (53 - d)).
  { replace (fexp 53 1024 (d + 0)) with (d - 53) by (unfold fexp, emin; lia).
    unfold shl_align. destruct (d - 53 - 0) as [|k|k] eqn:Ek; [|lia|].
    - exists z. replace (d - 53) with 0 by lia. split; [reflexivity|].
      replace (53 - d) with 0 by lia. lia.
    - exists (Pos.iter xO z k). split; [reflexivity|].
      rewrite iter_xO_spec. f_equal. f_equal. lia. }
  destruct Hshl as (m & Hshl & Hm).
  assert (Hdm : Zpos (digits2_pos m) = 53).
  { apply digits2_pos_unique. rewrite Hm. split.
    - replace (53 - 1) with ((d - 1) + (53 - d)) by lia.
      rewrite Z.pow_add_r by lia. apply Z.mul_le_mono_nonneg_r; [|exact Hlo].
      apply Z.pow_nonneg. lia.
    - replace 53 with (d + (53 - d)) at 2 by lia.
      rewrite Z.pow_add_r by lia. apply Z.mul_lt_mono_pos_r; [|exact Hhi].
      apply Z.pow_pos_nonneg; lia. }
  exists m. split; [|split; [exact Hm|exact Hdm]].
  unfold float64_of_int, binary_normalize, binary_round.
  fold d. rewrite Hshl.
  destruct (binary_round_aux_spec m (d - 53) loc_Exact)
    as (m' & e' & mr & Hr & Hmr & Hcase); [lia|lia|lia|].
  rewrite Hr. rewrite Hdm, Z.sub_diag, Z.pow_0_r, Z.div_1_r in Hmr.
  rewrite Hdm, Z.sub_diag, Z.add_0_r in Hcase.
  assert (Hmm : mr = Zpos m).
  { destruct Hmr as [H|[_ H]]; [exact H|].
    exfalso. apply (H eq_refl). apply Z.mod_1_r. }
  pose proof (digits2_pos_spec m) as Hms. rewrite Hdm in Hms.
  destruct Hcase as [(_ & -> & Hm')|(Hc & _)]; [|lia].
  f_equal. lia.
Qed.

(** The division of two mantissas of 53 bits: the dividend is moved up
    by 53 bits first. *)
Lemma SFdiv_core_binary_spec (m1 m2 : positive) (e1 e2 : Z) :
  Zpos (digits2_pos m1) = 53 -> Zpos (digits2_pos m2) = 53 ->
  -1000 <= e1 - e2 ->
  SFdiv_core_binary 53 1024 (Zpos m1) e1 (Zpos m2) e2 =
    (Zpos m1 * 2 ^ 53 / Zpos m2, e1 - e2 - 53,
     new_location (Zpos m2) (Zpos m1 * 2 ^ 53 mod Zpos m2)).
Proof.
  intros Hd1 Hd2 He. unfold SFdiv_core_binary. cbn [Zdigits2].
  rewrite Hd1, Hd2.
  replace (Z.min (fexp 53 1024 (53 + e1 - (53 + e2))) (e1 - e2))
    with (e1 - e2 - 53) by (unfold fexp, emin; lia).
  replace (e1 - e2 - (e1 - e2 - 53)) with 53 by lia.
  rewrite Z.shiftl_mul_pow2 by lia. unfold Z.div, Z.modulo.
  destruct (Z.div_eucl (Zpos m1 * 2 ^ 53) (Zpos m2)). reflexivity.
Qed.

(** The fraction of a minute: the quotient of the remaining nanoseconds by
    the nanoseconds of a minute, as a float64.  It stays at or below
    [1 - 2^-25] as long as 2000 ns or more are missing to the minute. *)
Lemma minute_fraction_bound (nsec : Z) :
  0 < nsec <= Minute - 2000 ->
  exists (mq : positive) (eq : Z),
    float64_div (float64_of_int nsec) (float64_of_int (60 * 1000000000))
      = S754_finite false mq eq /\
    -1074 <= eq <= -53 /\
    Zpos mq * 2 ^ 25 <= (2 ^ 25 - 1) * 2 ^ (- eq).
Proof.
  unfold Minute, Second. intros Hn.
  destruct nsec as [|z|z]; [lia| |lia].
  assert (Hz : Zpos z < 2 ^ 36) by lia.
  pose proof (pow2_digits_le z 36 ltac:(lia) Hz) as Hdz.
  pose proof (Pos2Z.is_pos (digits2_pos z)) as Hdz0.
  destruct (float64_of_int_exact z) as (m1 & -> & Hm1 & Hd1); [lia|].
  set (dz := Zpos (digits2_pos z)) in *.
  change (float64_of_int (60 * 1000000000))
    with (S754_finite false 7864320000000000 (-17)).
  unfold float64_div. cbn [SFdiv xorb].
  rewrite SFdiv_core_binary_spec by (try reflexivity; try assumption; lia).
  (* the quotient of the mantissas *)
  set (m2 := 7864320000000000%positive) in *.
  pose proof (digits2_pos_spec m1) as Hs1. rewrite Hd1 in Hs1.
  set (qq := Zpos m1 * 2 ^ 53 / Zpos m2).
  assert (Hqq : 2 ^ 52 <= qq < 2 ^ 54).
  { unfold qq, m2. split.
    - apply Z.div_le_lower_bound; lia.
    - apply Z.div_lt_upper_bound; lia. }
  assert (Hqm : qq * Zpos m2 <= Zpos m1 * 2 ^ 53).
  { unfold qq. rewrite Z.mul_comm. apply Z.mul_div_le. lia. }
  (* the scale [2 ^ (64 - dz)], at least [2 ^ 28] *)
  set (P := 2 ^ (64 - dz)).
  assert (HP : 2 ^ 28 <= P) by (apply Z.pow_le_mono_r; lia).
  assert (Hm1P : Zpos m1 * 2 ^ 53 = Zpos z * 2 ^ 25 * P * 2 ^ 17).
  { rewrite Hm1. unfold P.
    replace (Zpos z * 2 ^ (53 - dz) * 2 ^ 53)
      with (Zpos z * (2 ^ (53 - dz) * 2 ^ 53)) by ring.
    rewrite <- Z.pow_add_r by lia.
    replace (Zpos z * 2 ^ 25 * 2 ^ (64 - dz) * 2 ^ 17)
      with (Zpos z * (2 ^ 25 * 2 ^ (64 - dz) * 2 ^ 17)) by ring.
    rewrite <- !Z.pow_add_r by lia. f_equal. f_equal. lia. }
  assert (Hex : 2 ^ (- (dz - 53 - -17 - 53)) = 2 ^ 25 * P).
  { unfold P. rewrite <- Z.pow_add_r by lia. f_equal. lia. }
  assert (HzP : Zpos z * P <= (60 * 1000000000 - 2000) * P)
    by (apply Z.mul_le_mono_nonneg_r; lia).
  assert (Hbound : qq + 2 <= (2 ^ 25 - 1) * P) by (unfold m2 in Hqm; lia).
  destruct qq as [|qp|qp] eqn:Eqq; [lia| |lia].
  pose proof (digits2_pos_spec qp) as Hsq.
  assert (Hdq : 53 <= Zpos (digits2_pos qp) <= 54).
  { split.
    - destruct (Z.le_gt_cases 53 (Zpos (digits2_pos qp))) as [H|H]; [exact H|].
      assert (2 ^ Zpos (digits2_pos qp) <= 2 ^ 52)
        by (apply Z.pow_le_mono_r; lia). lia.
    - apply pow2_digits_le; lia. }
  destruct (binary_round_aux_spec qp (dz - 53 - -17 - 53)
              (new_location (Zpos m2) (Zpos m1 * 2 ^ 53 mod Zpos m2)))
    as (m' & e' & mr & Hr & Hmr & Hcase); [lia|lia|lia|].
  pose proof (leading_bits_range qp ltac:(lia)) as Hhi.
  set (n := Zpos (digits2_pos qp) - 53) in *.
  set (ex := dz - 53 - -17 - 53) in *.
  assert (Hn01 : n = 0 \/ n = 1) by lia.
  assert (Hdiv : Zpos qp / 2 ^ n * 2 ^ n <= Zpos qp).
  { rewrite Z.mul_comm. apply Z.mul_div_le. apply Z.pow_pos_nonneg; lia. }
  assert (Hmrn : mr * 2 ^ n <= (2 ^ 25 - 1) * P).
  { destruct Hn01 as [Hn0|Hn1]; rewrite ?Hn0, ?Hn1 in *;
      change (2 ^ 0) with 1 in *; change (2 ^ 1) with 2 in *;
      destruct Hmr as [->|[-> _]]; lia. }
  assert (Hscaled : Zpos m' * 2 ^ 25 <= (2 ^ 25 - 1) * 2 ^ (- e') /\
                    2 ^ 52 <= Zpos m' /\ ex <= e').
  { destruct Hcase as [(Hlt & -> & ->)|(Hc & -> & ->)].
    - split; [|split; [destruct Hmr as [->|[-> _]]; lia|lia]].
      assert (Hsplit : 2 ^ (- ex) = 2 ^ (- (ex + n)) * 2 ^ n)
        by (rewrite <- Z.pow_add_r by lia; f_equal; lia).
      rewrite Hex in Hsplit.
      assert (0 < 2 ^ n) by (apply Z.pow_pos_nonneg; lia).
      assert (0 <= 2 ^ (- (ex + n))) by (apply Z.pow_nonneg; lia).
      nia.
    - split; [|split; [lia|lia]].
      assert (Hsplit : 2 ^ (- ex) = 2 ^ (- (ex + n + 1)) * (2 * 2 ^ n))
        by (rewrite <- Z.pow_succ_r, <- Z.pow_add_r by lia; f_equal; lia).
      rewrite Hex in Hsplit.
      assert (0 < 2 ^ n) by (apply Z.pow_pos_nonneg; lia).
      assert (0 <= 2 ^ (- (ex + n + 1))) by (apply Z.pow_nonneg; lia).
      rewrite Hc in Hmrn. nia. }
  destruct Hscaled as (Hs & Hlo & Hge).
  exists m', e'. split; [exact Hr|]. split; [|exact Hs].
  split; [lia|].
  destruct (Z.le_gt_cases e' (-53)) as [H|H]; [exact H|].
  assert (2 ^ (- e') <= 2 ^ 52).
  { destruct (Z.le_gt_cases 0 (- e')).
    - apply Z.pow_le_mono_r; lia.
    - rewrite Z.pow_neg_r by lia. lia. }
  lia.
Qed.

Lemma shiftl_neg_small (m : positive) (e : Z) :
  e <= 0 -> Zpos m < 2 ^ (- e) -> Z.shiftl (Zpos m) e = 0.
Proof.
  intros He Hm. rewrite Z.shiftl_div_pow2 by lia.
  apply Z.div_small. lia.
Qed.

(** Adding a fraction at or below [1 - 2^-25] to a whole number below
    2^28 gives a float64 whose integer part is that whole number. *)
Lemma whole_plus_fraction_trunc (min : Z) (q : float64) :
  0 <= min < 2 ^ 28 ->
  (q = S754_zero false \/
   exists (mq : positive) (eq : Z),
     q = S754_finite false mq eq /\ -1074 <= eq <= -53 /\
     Zpos mq * 2 ^ 25 <= (2 ^ 25 - 1) * 2 ^ (- eq)) ->
  float64_trunc (float64_add (float64_of_int min) q) = Some min.
Proof.
  intros Hmin Hq.
  assert (Hfrac : forall (mq : positive) (eq : Z),
             -1074 <= eq <= -53 ->
             Zpos mq * 2 ^ 25 <= (2 ^ 25 - 1) * 2 ^ (- eq) ->
             Zpos mq < 2 ^ (- eq)).
  { intros mq eq He Hb.
    assert (0 < 2 ^ (- eq)) by (apply Z.pow_pos_nonneg; lia). lia. }
  destruct min as [|z|z]; [| |lia].
  - (* no whole minute *)
    change (float64_of_int 0) with (S754_zero false).
    destruct Hq as [->|(mq & eq & -> & He & Hb)]; [reflexivity|].
    cbn [float64_add SFadd float64_trunc cond_Zopp]. unfold float64_add.
    cbn [SFadd float64_trunc cond_Zopp].
    rewrite shiftl_neg_small by (try apply Hfrac; lia). reflexivity.
  - pose proof (pow2_digits_le z 28 ltac:(lia) ltac:(lia)) as Hdz.
    pose proof (Pos2Z.is_pos (digits2_pos z)) as Hdz0.
    pose proof (digits2_pos_spec z) as Hsz.
    destruct (float64_of_int_exact z) as (mm & -> & Hmm & Hdm); [lia|].
    set (dz := Zpos (digits2_pos z)) in *.
    assert (Hpow : 2 ^ (53 - dz) * 2 ^ (dz - 1) = 2 ^ 52)
      by (rewrite <- Z.pow_add_r by lia; f_equal; lia).
    destruct Hq as [->|(mq & eq & -> & He & Hb)].
    + (* no fraction *)
      unfold float64_add. cbn [SFadd float64_trunc cond_Zopp].
      rewrite Z.shiftl_div_pow2 by lia.
      replace (- (dz - 53)) with (53 - dz) by lia.
      rewrite Hmm, Z.div_mul; [reflexivity|].
      apply Z.pow_nonzero; lia.
    + pose proof (Hfrac mq eq He Hb) as Hlt.
      set (L := - eq) in *. set (km := 53 - dz) in *.
      set (n := L - km).
      assert (HL : 2 ^ L = 2 ^ km * 2 ^ n)
        by (rewrite <- Z.pow_add_r by lia; f_equal; lia).
      assert (Hkm : 2 ^ km = 2 ^ 25 * 2 ^ (km - 25))
        by (rewrite <- Z.pow_add_r by lia; f_equal; lia).
      assert (HA' : 0 < 2 ^ (km - 25)) by (apply Z.pow_pos_nonneg; lia).
      assert (HB : 0 < 2 ^ n) by (apply Z.pow_pos_nonneg; lia).
      unfold float64_add. cbn [SFadd].
      replace (Z.min (dz - 53) eq) with eq by lia.
      (* the aligned mantissas and their sum *)
      assert (Ha1 : Zpos (fst (shl_align mm (dz - 53) eq)) = Zpos z * 2 ^ L).
      { unfold shl_align. destruct (eq - (dz - 53)) as [|k|k] eqn:Ek; [lia|lia|].
        cbn [fst]. rewrite iter_xO_spec, Hmm.
        replace (Zpos k) with n by lia. rewrite HL. fold km. ring. }
      assert (Ha2 : fst (shl_align mq eq eq) = mq)
        by (unfold shl_align; rewrite Z.sub_diag; reflexivity).
      rewrite Ha2. cbn [cond_Zopp]. rewrite <- Pos2Z.inj_add.
      cbn [binary_normalize].
      set (sm := (fst (shl_align mm (dz - 53) eq) + mq)%positive).
      assert (Hsm : Zpos sm = Zpos z * 2 ^ L + Zpos mq)
        by (rewrite <- Ha1; unfold sm; lia).
      assert (Hds : Zpos (digits2_pos sm) = dz + L).
      { apply digits2_pos_unique. rewrite Hsm.
        replace (dz + L - 1) with ((dz - 1) + L) by lia.
        rewrite !Z.pow_add_r by lia. nia. }
      unfold binary_round. rewrite Hds.
      replace (fexp 53 1024 (dz + L + eq)) with (dz - 53)
        by (unfold fexp, emin, L; lia).
      unfold shl_align at 1.
      destruct (dz - 53 - eq) as [|k|k] eqn:Ek; [lia| |lia].
      destruct (binary_round_aux_spec sm eq loc_Exact)
        as (m' & e' & mr & Hr & Hmr & Hcase); [lia|lia|lia|].
      rewrite Hr. rewrite Hds in Hmr, Hcase.
      replace (dz + L - 53) with n in Hmr, Hcase by (unfold n, km; lia).
      cbn [float64_trunc cond_Zopp].
      assert (Hhi : Zpos sm / 2 ^ n = Zpos z * 2 ^ km + Zpos mq / 2 ^ n).
      { rewrite Hsm, HL.
        replace (Zpos z * (2 ^ km * 2 ^ n) + Zpos mq)
          with (Zpos mq + Zpos z * 2 ^ km * 2 ^ n) by ring.
        rewrite Z.div_add by lia. ring. }
      assert (Hmod : Zpos sm mod 2 ^ n = Zpos mq mod 2 ^ n).
      { rewrite Hsm, HL.
        replace (Zpos z * (2 ^ km * 2 ^ n) + Zpos mq)
          with (Zpos mq + Zpos z * 2 ^ km * 2 ^ n) by ring.
        apply Z.mod_add. lia. }
      rewrite Hhi, Hmod in Hmr.
      pose proof (Z.div_mod (Zpos mq) (2 ^ n) ltac:(lia)) as Hdm'.
      pose proof (Z.mod_pos_bound (Zpos mq) (2 ^ n) HB) as Hrm.
      assert (HX : Zpos mq <= (2 ^ 25 - 1) * (2 ^ (km - 25) * 2 ^ n))
        by (rewrite HL, Hkm in Hb; nia).
      assert (Hq1 : Zpos mq / 2 ^ n <= (2 ^ 25 - 1) * 2 ^ (km - 25))
        by (apply Z.div_le_upper_bound; [exact HB|]; nia).
      assert (Hq2 : Zpos mq mod 2 ^ n <> 0 ->
                    Zpos mq / 2 ^ n < (2 ^ 25 - 1) * 2 ^ (km - 25)).
      { intros Hnz. apply Z.div_lt_upper_bound; [exact HB|].
        destruct (Z.eq_dec (Zpos mq) ((2 ^ 25 - 1) * 2 ^ (km - 25) * 2 ^ n))
          as [E|E]; [|lia].
        exfalso. apply Hnz. rewrite E. apply Z.mod_mul. lia. }
      assert (Hbounds : Zpos z * 2 ^ km <= mr < (Zpos z + 1) * 2 ^ km).
      { pose proof (Z.div_pos (Zpos mq) (2 ^ n) ltac:(lia) HB).
        destruct Hmr as [->|[-> Hnz]];
          [|specialize (Hq2 (Hnz eq_refl))]; lia. }
      assert (Hz53 : (Zpos z + 1) * 2 ^ km <= 2 ^ 53).
      { replace (2 ^ 53) with (2 ^ dz * 2 ^ km)
          by (rewrite <- Z.pow_add_r by lia; f_equal; unfold km; lia).
        apply Z.mul_le_mono_nonneg_r; lia. }
      destruct Hcase as [(_ & -> & ->)|(Hc & _)]; [|lia].
      rewrite Z.shiftl_div_pow2 by (unfold L, n, km in *; lia).
      replace (- (eq + n)) with km by (unfold L, n, km in *; lia).
      f_equal. symmetry.
      apply Z.div_unique with (r := mr - Zpos z * 2 ^ km); [left|]; lia.
Qed.

(** ** Dates *)

Section DateProperties.

Variable IoDateBase : Time.
Variable conv : Z -> float64 -> Z.

Lemma Time_Sub_in_range (t : Time) :
  minDuration <= t - IoDateBase <= maxDuration ->
  Time_Sub t IoDateBase = t - IoDateBase.
Proof.
  intros Hd. unfold Time_Sub.
  destruct (Z.ltb_spec (t - IoDateBase) minDuration); [lia|].
  destruct (Z.ltb_spec maxDuration (t - IoDateBase)); [lia|reflexivity].
Qed.

Lemma Time_Sub_saturates (t : Time) :
  maxDuration <= t - IoDateBase -> Time_Sub t IoDateBase = maxDuration.
Proof.
  intros Hd. unfold Time_Sub.
  destruct (Z.ltb_spec (t - IoDateBase) minDuration);
    [unfold minDuration, maxDuration in *; lia|].
  destruct (Z.ltb_spec maxDuration (t - IoDateBase)); [reflexivity|lia].
Qed.

Lemma uint_of_float64_range (w : Z) (x : float64) :
  0 <= w -> 0 <= uint_of_float64 conv w x < 2 ^ w.
Proof.
  intros Hw. unfold uint_of_float64, wrap.
  assert (Hp : 0 < 2 ^ w) by (apply Z.pow_pos_nonneg; lia).
  destruct (float64_trunc x) as [z|]; [|apply Z.mod_pos_bound, Hp].
  destruct (Z.leb_spec 0 z), (Z.ltb_spec z (2 ^ w)); cbn [andb];
    try apply Z.mod_pos_bound, Hp. lia.
Qed.

(** The minutes written for a time whose distance to the epoch fits a
    Duration and which is not within the last 2000 ns of a minute. *)
Lemma GetDateInMinutes_whole_minutes (t : Time) :
  0 <= t - IoDateBase <= maxDuration ->
  (t - IoDateBase) mod Minute <= Minute - 2000 ->
  GetDateInMinutes IoDateBase conv t = (t - IoDateBase) / Minute.
Proof.
  intros Hd Hns. unfold GetDateInMinutes.
  rewrite Time_Sub_in_range by (unfold minDuration; lia).
  set (d := t - IoDateBase) in *. unfold Duration_Minutes.
  assert (HM : 0 < Minute) by reflexivity.
  rewrite Z.quot_div_nonneg, Z.rem_mod_nonneg by lia.
  pose proof (Z.mod_pos_bound d Minute HM) as Hmod.
  assert (Hmin : 0 <= d / Minute < 2 ^ 28).
  { split; [apply Z.div_pos; lia|].
    apply Z.div_lt_upper_bound; [exact HM|].
    unfold maxDuration, Minute, Second in *. lia. }
  unfold uint_of_float64.
  rewrite whole_plus_fraction_trunc; [|exact Hmin|].
  - destruct (Z.leb_spec 0 (d / Minute)), (Z.ltb_spec (d / Minute) (2 ^ 32));
      try lia. reflexivity.
  - destruct (Z.eq_dec (d mod Minute) 0) as [->|Hnz].
    + left. reflexivity.
    + right. apply minute_fraction_bound. lia.
Qed.

(** C2, as the code has it: the two date encoders have no failure of
    their own.  For every time, in range or not, they return a nil
    error and append the four or two bytes of an integer of the width;
    the minutes of a time 2^63 - 1 ns or more after the epoch are those
    of the largest Duration, 153722867. *)
Theorem date_encoders_never_fail (t : Time) (b : Buffer) :
  WriteDateToUInt32 IoDateBase conv t b =
    (None, b ++ PutUint32 (GetDateInMinutes IoDateBase conv t)) /\
  WriteDate IoDateBase conv t b =
    (None, b ++ PutUint16
                  (uint_of_float64 conv 16
                     (float64_div (Duration_Hours (Time_Sub t IoDateBase))
                                  (float64_of_int 24)))) /\
  0 <= GetDateInMinutes IoDateBase conv t < 2 ^ 32 /\
  (maxDuration <= t - IoDateBase ->
   GetDateInMinutes IoDateBase conv t = 153722867).
Proof.
  split; [reflexivity|]. split; [reflexivity|]. split.
  - apply uint_of_float64_range. lia.
  - intros Hd. unfold GetDateInMinutes.
    rewrite Time_Sub_saturates by exact Hd. reflexivity.
Qed.

(** C4, as the code has it: for a time from the epoch up to the largest
    Duration (2^63 - 1 ns, about 292 years) after it, and not within the
    last 2000 ns of a minute, writing with [WriteDateToUInt32] and
    reading with [ReadDateFromUInt32] gives the time cut to the whole
    minute.  A time 90 minutes after the epoch comes back unchanged, a
    time 90 seconds after it comes back as one minute after it. *)
Theorem date_minutes_round_trip (t : Time) :
  (0 <= t - IoDateBase <= maxDuration ->
   (t - IoDateBase) mod Minute <= Minute - 2000 ->
   round_trips (WriteDateToUInt32 IoDateBase conv t)
     (ReadDateFromUInt32 IoDateBase) (truncated_to_minute IoDateBase t)) /\
  round_trips (WriteDateToUInt32 IoDateBase conv (IoDateBase + 90 * Minute))
    (ReadDateFromUInt32 IoDateBase) (IoDateBase + 90 * Minute) /\
  round_trips (WriteDateToUInt32 IoDateBase conv (IoDateBase + 90 * Second))
    (ReadDateFromUInt32 IoDateBase) (IoDateBase + 1 * Minute).
Proof.
  assert (Hgen : forall t' : Time,
             0 <= t' - IoDateBase <= maxDuration ->
             (t' - IoDateBase) mod Minute <= Minute - 2000 ->
             round_trips (WriteDateToUInt32 IoDateBase conv t')
               (ReadDateFromUInt32 IoDateBase)
               (truncated_to_minute IoDateBase t')).
  { intros t' Hd Hns. unfold round_trips, WriteDateToUInt32.
    rewrite WriteUint32_run. cbn [fst snd app]. split; [reflexivity|].
    rewrite GetDateInMinutes_whole_minutes by assumption.
    set (d := t' - IoDateBase) in *.
    assert (HM : 0 < Minute) by reflexivity.
    assert (Hmin : 0 <= d / Minute) by (apply Z.div_pos; lia).
    pose proof (Z.mul_div_le d Minute HM) as Hle.
    assert (Hlt : d / Minute < 2 ^ 32).
    { apply Z.div_lt_upper_bound; [exact HM|].
      unfold maxDuration, Minute, Second in *. lia. }
    unfold ReadDateFromUInt32, bind.
    rewrite <- (app_nil_r (PutUint32 (d / Minute))).
    rewrite ReadUint32_run by lia. unfold ret, truncated_to_minute.
    fold d. rewrite Z.quot_div_nonneg by lia.
    unfold Time_Add, Duration_mul, wrap_int64.
    rewrite Z.mod_small by (unfold maxDuration in *; lia).
    do 2 f_equal. f_equal. lia. }
  split; [exact (Hgen t)|]. split.
  - replace (IoDateBase + 90 * Minute)
      with (truncated_to_minute IoDateBase (IoDateBase + 90 * Minute)) at 2.
    + apply Hgen;
        replace (IoDateBase + 90 * Minute - IoDateBase) with (90 * Minute)
          by lia; [split|]; discriminate.
    + unfold truncated_to_minute.
      replace (IoDateBase + 90 * Minute - IoDateBase) with (90 * Minute)
        by lia. reflexivity.
  - replace (IoDateBase + 1 * Minute)
      with (truncated_to_minute IoDateBase (IoDateBase + 90 * Second)).
    + apply Hgen;
        replace (IoDateBase + 90 * Second - IoDateBase) with (90 * Second)
          by lia; [split|]; discriminate.
    + unfold truncated_to_minute.
      replace (IoDateBase + 90 * Second - IoDateBase) with (90 * Second)
        by lia. reflexivity.
Qed.

End DateProperties.

(** A time 2^32 minutes after an epoch: past what [t.Sub] can return. *)
Lemma date_encoders_never_fail_witness :
  GetDateInMinutes epoch_2020 conv_zero (epoch_2020 + 2 ^ 32 * Minute)
    = 153722867.
Proof.
  apply (date_encoders_never_fail epoch_2020 conv_zero
           (epoch_2020 + 2 ^ 32 * Minute) []).
  discriminate.
Defined.

(** A time 90 s and 5 ns after an epoch comes back as one minute after
    it. *)
Lemma date_minutes_round_trip_witness :
  round_trips
    (WriteDateToUInt32 epoch_2020 conv_zero (epoch_2020 + 90 * Second + 5))
    (ReadDateFromUInt32 epoch_2020)
    (truncated_to_minute epoch_2020 (epoch_2020 + 90 * Second + 5)).
Proof.
  refine (proj1 (date_minutes_round_trip epoch_2020 conv_zero
                   (epoch_2020 + 90 * Second + 5)) _ _).
  - split; discriminate.
  - discriminate.
Defined.

(** C2 as stated fails: a time 2^32 minutes after the epoch (one minute
    more than a uint32 of minutes can hold), a time 30 s before the epoch,
    and a time 65536 days after the epoch (one day more than a uint16 of
    days can hold, its float64 day count being exactly 65536) are all
    written with a nil error. *)
Lemma date_encoders_never_fail_counterexample :
  WriteDateToUInt32 epoch_2020 conv_zero (epoch_2020 + 2 ^ 32 * Minute) []
    = (None, PutUint32 153722867) /\
  WriteDateToUInt32 epoch_2020 conv_zero (epoch_2020 - 30 * Second) []
    = (None, PutUint32 0) /\
  float64_div (Duration_Hours (Time_Sub (epoch_2020 + 65536 * (24 * Hour))
                                        epoch_2020))
              (float64_of_int 24) = float64_of_int 65536 /\
  WriteDate epoch_2020 conv_zero (epoch_2020 + 65536 * (24 * Hour)) []
    = (None, PutUint16 (conv_zero 16 (float64_of_int 65536))).
Proof.
  split; [vm_compute; reflexivity|]. split; [vm_compute; reflexivity|].
  split; vm_compute; reflexivity.
Qed.

(** C4 as stated fails.  A time 160000000 minutes (about 304 years) after
    the epoch is inside the range of a uint32 of minutes, but [t.Sub]
    returns the largest Duration for it and it comes back as 153722867
    minutes after the epoch.  And a time one nanosecond short of 262145
    minutes after the epoch comes back as 262145 minutes after it, not
    262144: the float64 sum of [Duration.Minutes] rounds up. *)
Lemma date_minutes_round_trip_counterexample :
  truncated_to_minute epoch_2020 (epoch_2020 + 160000000 * Minute)
    = epoch_2020 + 160000000 * Minute /\
  ReadDateFromUInt32 epoch_2020
    (snd (WriteDateToUInt32 epoch_2020 conv_zero
            (epoch_2020 + 160000000 * Minute) []))
    = ((epoch_2020 + 153722867 * Minute, None), []) /\
  truncated_to_minute epoch_2020 (epoch_2020 + 262144 * Minute + 59999999999)
    = epoch_2020 + 262144 * Minute /\
  ReadDateFromUInt32 epoch_2020
    (snd (WriteDateToUInt32 epoch_2020 conv_zero
            (epoch_2020 + 262144 * Minute + 59999999999) []))
    = ((epoch_2020 + 262145 * Minute, None), []).
Proof.
  split; [vm_compute; reflexivity|]. split; [vm_compute; reflexivity|].
  split; vm_compute; reflexivity.
Qed.

(** * Further properties of the codec *)

(** ** Writes only append *)

Lemma WriteByteArrayNoLength_run (v : list byte) (b : Buffer) :
  WriteByteArrayNoLength v b = (None, b ++ v).
Proof.
  unfold WriteByteArrayNoLength, bind, Buffer_Write, ret.
  rewrite Z.eqb_refl. reflexivity.
Qed.

Lemma WriteByteArrayArrayNoLength_run (v : list (list byte)) (b : Buffer) :
  WriteByteArrayArrayNoLength v b = (None, b ++ concat v).
Proof.
  revert b. induction v as [|d v IH]; intros b; cbn.
  - unfold ret. rewrite app_nil_r. reflexivity.
  - unfold bind. rewrite WriteByteArrayNoLength_run, IH, <- app_assoc.
    reflexivity.
Qed.

Lemma appends_only_intro (enc : Buf (option error)) (bytes : list byte) :
  (forall b, enc b = (None, b ++ bytes)) -> appends_only enc.
Proof.
  intros H b. rewrite (H b), (H []). cbn [fst snd app]. auto.
Qed.

Lemma appends_only_then_write (enc1 enc2 : Buf (option error)) :
  appends_only enc1 -> appends_only enc2 -> appends_only (then_write enc1 enc2).
Proof.
  intros H1 H2 b. unfold then_write, bind.
  destruct (H1 b) as [He1 Hb1]. destruct (H1 []) as [He0 Hb0].
  destruct (enc1 b) as [err1 b1]. destruct (enc1 []) as [err0 b0].
  cbn [fst snd] in *. subst err1 err0 b1. cbn [app] in Hb0.
  destruct (H2 (b ++ b0)) as [He2 Hb2]. destruct (H2 b0) as [He3 Hb3].
  split; [exact He2|]. rewrite Hb2, Hb3. apply eq_sym, app_assoc.
Qed.

Section WritesAppend.

Variable IoDateBase : Time.
Variable conv : Z -> float64 -> Z.

(** No write of the codec fails or touches the bytes already in the
    buffer: each returns a nil error and appends bytes that depend on the
    value alone.  The same holds of writes run one after the other. *)
Theorem writes_append_only (c : byte) (v : bool) (i16 i32 : Z) (f : float32)
  (s : gostring) (d : list byte) (ss : list gostring) (ds : list (list byte))
  (t : Time) (enc1 enc2 : Buf (option error)) :
  appends_only (WriteByte c) /\ appends_only (WriteBool v) /\
  appends_only (WriteUint16 i16) /\ appends_only (WriteUint32 i32) /\
  appends_only (WriteFloat32 f) /\ appends_only (WriteString s) /\
  appends_only (WriteByteArray d) /\ appends_only (WriteByteArrayNoLength d) /\
  appends_only (WriteStrings ss) /\ appends_only (WriteByteArrayArray ds) /\
  appends_only (WriteByteArrayArrayNoLength ds) /\
  appends_only (WriteDateToUInt32 IoDateBase conv t) /\
  appends_only (WriteDate IoDateBase conv t) /\
  (appends_only enc1 -> appends_only enc2 ->
   appends_only (then_write enc1 enc2)).
Proof.
  split; [eapply appends_only_intro; intros b; reflexivity|].
  split; [eapply appends_only_intro; intros b; reflexivity|].
  split; [eapply appends_only_intro; intros b; reflexivity|].
  split; [eapply appends_only_intro; intros b; reflexivity|].
  split; [eapply appends_only_intro; intros b; reflexivity|].
  split; [eapply appends_only_intro; intros b; apply WriteString_run|].
  split; [eapply appends_only_intro; intros b; apply WriteByteArray_run|].
  split; [eapply appends_only_intro; intros b;
          apply WriteByteArrayNoLength_run|].
  split; [eapply appends_only_intro; intros b; apply WriteStrings_run|].
  split; [eapply appends_only_intro; intros b;
          apply WriteByteArrayArray_run|].
  split; [eapply appends_only_intro; intros b;
          apply WriteByteArrayArrayNoLength_run|].
  split; [eapply appends_only_intro; intros b; reflexivity|].
  split; [eapply appends_only_intro; intros b; reflexivity|].
  apply appends_only_then_write.
Qed.

End WritesAppend.

Lemma writes_append_only_witness :
  appends_only (then_write (WriteUint16 7) (WriteString [x68; x69])).
Proof.
  apply (writes_append_only 0 conv_zero x00 false 7 0 (Float32frombits 0)
           [x68; x69] [] [] [] 0 (WriteUint16 7) (WriteString [x68; x69]));
    apply (writes_append_only 0 conv_zero x00 false 7 0 (Float32frombits 0)
             [x68; x69] [] [] [] 0 (WriteUint16 7) (WriteString [x68; x69])).
Defined.

(** ** Reads take exactly what was written *)



Lemma ReadStrings_run (ss : list gostring) (rest : Buffer) :
  len ss < 2 ^ 16 -> Forall (fun s => ~ In x00 s) ss ->
  ReadStrings (PutUint16 (len ss) ++ strings_bytes ss ++ rest)
    = ((Slice ss, None), rest).
Proof.
  intros Hss Hzero. unfold ReadStrings, bind.
  rewrite ReadUint16_run by (unfold len in *; lia).
  unfold len. rewrite Nat2Z.id.
  apply (ReadStrings_loop_run ss 0 [] rest Hzero eq_refl).
Qed.

Lemma ReadByteArrayArray_run (ds : list (list byte)) (rest : Buffer) :
  len ds < 2 ^ 16 -> Forall (fun d => len d < 2 ^ 32) ds ->
  ReadByteArrayArray (PutUint16 (len ds) ++ byte_arrays_bytes ds ++ rest)
    = ((Slice (map Slice ds), None), rest).
Proof.
  intros Hds Hlen. unfold ReadByteArrayArray, bind.
  rewrite ReadUint16_run by (unfold len in *; lia).
  unfold len. rewrite Nat2Z.id.
  apply (ReadByteArrayArray_loop_run ds 0 [] rest Hlen eq_refl).
Qed.




(** ** Which reads succeed, and what a failed read leaves *)

Lemma Buffer_Next_cases (n : Z) (b : Buffer) :
  0 <= n ->
  (len b < n /\ Buffer_Next n b = (b, [])) \/
  (exists d rest : list byte,
      b = d ++ rest /\ len d = n /\ Buffer_Next n b = (d, rest)).
Proof.
  intros Hn. destruct (Z.lt_ge_cases (len b) n) as [Hlt|Hge].
  - left. split; [exact Hlt|]. apply Buffer_Next_short, Hlt.
  - right. exists (take (Z.to_nat n) b), (drop (Z.to_nat n) b).
    split; [symmetry; apply take_drop|]. split; [|reflexivity].
    unfold len in *. rewrite length_take. lia.
Qed.

Lemma len_neq_negb (x n : Z) : x < n -> negb (x =? n) = true.
Proof. intros H. destruct (Z.eqb_spec x n); [lia|reflexivity]. Qed.

Lemma ReadByte_cases (b : Buffer) :
  (len b < 1 /\ ReadByte b = ((x00, Some (ErrBytesIncorrect (len b) "byte")), [])) \/
  (exists c rest, b = c :: rest /\ ReadByte b = ((c, None), rest)).
Proof.
  destruct b as [|c rest]; [left|right].
  - split; [reflexivity|reflexivity].
  - exists c, rest. split; reflexivity.
Qed.

Lemma ReadBool_cases (b : Buffer) :
  (len b < 1 /\ ReadBool b = ((false, Some (ErrBytesIncorrect (len b) "bool")), [])) \/
  (exists c rest, b = c :: rest /\
                  ReadBool b = ((negb (Byte.eqb c x00), None), rest)).
Proof.
  destruct b as [|c rest]; [left|right].
  - split; [reflexivity|reflexivity].
  - exists c, rest. split; reflexivity.
Qed.

Lemma ReadUint16_cases (b : Buffer) :
  (len b < 2 /\ ReadUint16 b = ((0, Some (ErrBytesIncorrect (len b) "Uint16")), [])) \/
  (exists d rest, b = d ++ rest /\ len d = 2 /\
                  ReadUint16 b = ((Uint16 d, None), rest)).
Proof.
  destruct (Buffer_Next_cases 2 b ltac:(lia)) as [[Hlt HN]|(d & rest & Hb & Hd & HN)].
  - left. split; [exact Hlt|]. unfold ReadUint16, bind.
    rewrite HN, len_neq_negb by exact Hlt. reflexivity.
  - right. exists d, rest. split; [exact Hb|]. split; [exact Hd|].
    unfold ReadUint16, bind. rewrite HN, Hd. reflexivity.
Qed.

Lemma ReadUint32_cases (b : Buffer) :
  (len b < 4 /\ ReadUint32 b = ((0, Some (ErrBytesIncorrect (len b) "Uint32")), [])) \/
  (exists d rest, b = d ++ rest /\ len d = 4 /\
                  ReadUint32 b = ((Uint32 d, None), rest)).
Proof.
  destruct (Buffer_Next_cases 4 b ltac:(lia)) as [[Hlt HN]|(d & rest & Hb & Hd & HN)].
  - left. split; [exact Hlt|]. unfold ReadUint32, bind.
    rewrite HN, len_neq_negb by exact Hlt. reflexivity.
  - right. exists d, rest. split; [exact Hb|]. split; [exact Hd|].
    unfold ReadUint32, bind. rewrite HN, Hd. reflexivity.
Qed.

(** The first zero byte: nothing before it is zero, and it is there. *)
Lemma IndexByte_found (b : list byte) (d : byte) (i : nat) :
  IndexByte b d = Some i ->
  b = take i b ++ d :: drop (S i) b /\ ~ In d (take i b).
Proof.
  revert i. induction b as [|c b IH]; intros i; cbn [IndexByte];
    [discriminate|].
  destruct (Byte.eqb c d) eqn:E.
  - intros [= <-]. apply Byte.byte_dec_bl in E. subst c.
    cbn. split; [reflexivity|tauto].
  - destruct (IndexByte b d) as [j|]; [|discriminate].
    intros [= <-]. destruct (IH j eq_refl) as [Hb Hn]. cbn [take drop app].
    split; [f_equal; exact Hb|].
    intros [Hc|Hin]; [|exact (Hn Hin)].
    subst c. rewrite Byte.byte_dec_lb in E by reflexivity. discriminate.
Qed.

Lemma IndexByte_none (b : list byte) (d : byte) :
  IndexByte b d = None -> ~ In d b.
Proof.
  induction b as [|c b IH]; cbn [IndexByte]; [tauto|].
  destruct (Byte.eqb c d) eqn:E; [discriminate|].
  destruct (IndexByte b d); [discriminate|]. intros _ [Hc|Hin].
  - subst c. rewrite Byte.byte_dec_lb in E by reflexivity. discriminate.
  - exact (IH eq_refl Hin).
Qed.

Lemma ReadString_cases (b : Buffer) :
  (~ In x00 b /\ ReadString b = (([], Some EOF), [])) \/
  (exists s rest, b = s ++ x00 :: rest /\ ~ In x00 s /\
                  ReadString b = ((s, None), rest)).
Proof.
  destruct (IndexByte b x00) as [i|] eqn:Ei.
  - right. destruct (IndexByte_found b x00 i Ei) as [Hb Hn].
    exists (take i b), (drop (S i) b).
    split; [exact Hb|]. split; [exact Hn|]. apply ReadString_found, Ei.
  - left. split; [apply IndexByte_none, Ei|].
    unfold ReadString, bind, Buffer_ReadBytes. rewrite Ei. reflexivity.
Qed.

Lemma ReadByteArray_cases (b : Buffer) :
  (len b < 4 /\
   ReadByteArray b = ((Nil, Some (ErrBytesIncorrect (len b) "Uint32")), [])) \/
  (exists d rest, b = d ++ rest /\ len d = 4 /\
     ReadByteArray b = ((Slice (take (Z.to_nat (Uint32 d)) rest), None),
                        drop (Z.to_nat (Uint32 d)) rest)).
Proof.
  destruct (ReadUint32_cases b) as [[Hlt HR]|(d & rest & Hb & Hd & HR)].
  - left. split; [exact Hlt|]. unfold ReadByteArray, bind. rewrite HR.
    reflexivity.
  - right. exists d, rest. split; [exact Hb|]. split; [exact Hd|].
    unfold ReadByteArray, bind. rewrite HR. reflexivity.
Qed.

Lemma ReadString_drains : drains_on_error ReadString.
Proof.
  intros b b' v e H.
  destruct (ReadString_cases b) as [[_ HR]|(s & rest & _ & _ & HR)];
    rewrite HR in H; congruence.
Qed.

Lemma ReadByteArray_drains : drains_on_error ReadByteArray.
Proof.
  intros b b' v e H.
  destruct (ReadByteArray_cases b) as [[_ HR]|(d & rest & _ & _ & HR)];
    rewrite HR in H; congruence.
Qed.

Lemma ReadUint16_drains : drains_on_error ReadUint16.
Proof.
  intros b b' v e H.
  destruct (ReadUint16_cases b) as [[_ HR]|(d & rest & _ & _ & HR)];
    rewrite HR in H; congruence.
Qed.

Lemma ReadUint32_drains : drains_on_error ReadUint32.
Proof.
  intros b b' v e H.
  destruct (ReadUint32_cases b) as [[_ HR]|(d & rest & _ & _ & HR)];
    rewrite HR in H; congruence.
Qed.

Lemma ReadStrings_loop_drains (n : nat) :
  forall i v, drains_on_error (ReadStrings_loop n i v).
Proof.
  induction n as [|n IH]; intros i v b b' r e; cbn [ReadStrings_loop].
  - unfold ret. congruence.
  - unfold bind. destruct (ReadString b) as [[s [e'|]] b1] eqn:ER.
    + unfold ret. intros [= _ _ <-]. exact (ReadString_drains _ _ _ _ ER).
    + apply IH.
Qed.

Lemma ReadByteArrayArray_loop_drains (n : nat) :
  forall i v, drains_on_error (ReadByteArrayArray_loop n i v).
Proof.
  induction n as [|n IH]; intros i v b b' r e; cbn [ReadByteArrayArray_loop].
  - unfold ret. congruence.
  - unfold bind. destruct (ReadByteArray b) as [[s [e'|]] b1] eqn:ER.
    + unfold ret. intros [= _ _ <-]. exact (ReadByteArray_drains _ _ _ _ ER).
    + apply IH.
Qed.

(** Every read of the codec that returns an error has consumed the whole
    buffer: nothing is left to resume from. *)
Theorem failed_reads_drain (IoDateBase : Time) (l : Z) :
  drains_on_error ReadByte /\ drains_on_error ReadBool /\
  drains_on_error ReadUint16 /\ drains_on_error ReadUint32 /\
  drains_on_error ReadFloat32 /\ drains_on_error ReadString /\
  drains_on_error ReadByteArray /\
  (0 <= l -> drains_on_error (ReadByteArrayNoLength l)) /\
  drains_on_error ReadStrings /\ drains_on_error ReadByteArrayArray /\
  drains_on_error (ReadDateFromUInt32 IoDateBase) /\
  drains_on_error (ReadDate IoDateBase) /\ drains_on_error ReadTime.
Proof.
  split.
  { intros b b' v e H.
    destruct (ReadByte_cases b) as [[_ HR]|(c & rest & _ & HR)];
      rewrite HR in H; congruence. }
  split.
  { intros b b' v e H.
    destruct (ReadBool_cases b) as [[_ HR]|(c & rest & _ & HR)];
      rewrite HR in H; congruence. }
  split; [exact ReadUint16_drains|]. split; [exact ReadUint32_drains|].
  split.
  { intros b b' v e. unfold ReadFloat32, bind.
    destruct (ReadUint32 b) as [[x [e'|]] b1] eqn:ER; unfold ret;
      [|congruence].
    intros [= _ _ <-]. exact (ReadUint32_drains _ _ _ _ ER). }
  split; [exact ReadString_drains|]. split; [exact ReadByteArray_drains|].
  split.
  { intros Hl b b' v e. unfold ReadByteArrayNoLength, bind.
    destruct (Buffer_Next_cases l b Hl) as [[Hlt HN]|(d & rest & _ & Hd & HN)];
      rewrite HN.
    - rewrite len_neq_negb by exact Hlt. unfold ret. congruence.
    - rewrite Hd, Z.eqb_refl. unfold ret. cbn [negb]. congruence. }
  split.
  { intros b b' v e. unfold ReadStrings, bind.
    destruct (ReadUint16 b) as [[c [e'|]] b1] eqn:ER.
    - unfold ret. intros [= _ _ <-]. exact (ReadUint16_drains _ _ _ _ ER).
    - apply ReadStrings_loop_drains. }
  split.
  { intros b b' v e. unfold ReadByteArrayArray, bind.
    destruct (ReadUint16 b) as [[c [e'|]] b1] eqn:ER.
    - unfold ret. intros [= _ _ <-]. exact (ReadUint16_drains _ _ _ _ ER).
    - apply ReadByteArrayArray_loop_drains. }
  split.
  { intros b b' v e. unfold ReadDateFromUInt32, bind.
    destruct (ReadUint32 b) as [[x [e'|]] b1] eqn:ER; unfold ret;
      [|congruence].
    intros [= _ _ <-]. exact (ReadUint32_drains _ _ _ _ ER). }
  split.
  { intros b b' v e. unfold ReadDate, bind.
    destruct (ReadUint16 b) as [[x [e'|]] b1] eqn:ER; unfold ret;
      [|congruence].
    intros [= _ _ <-]. exact (ReadUint16_drains _ _ _ _ ER). }
  intros b b' v e. unfold ReadTime, bind.
  destruct (ReadByteArray b) as [[x [e'|]] b1] eqn:ER; unfold ret;
    [|congruence].
  intros [= _ _ <-]. exact (ReadByteArray_drains _ _ _ _ ER).
Qed.

(** In the witness the first of two announced strings is read, the second
    has no terminator, and nothing is left. *)
Lemma failed_reads_drain_witness :
  snd (ReadStrings [x02; x00; x61; x00; x62; x63]) = [].
Proof.
  apply (proj1 (proj2 (proj2 (proj2 (proj2 (proj2 (proj2 (proj2 (proj2
           (failed_reads_drain 0 0)))))))))
           [x02; x00; x61; x00; x62; x63] _ Nil EOF).
  reflexivity.
Defined.

(** ** Decoding accepts only what encoding produces *)

Lemma land_shiftl_small (a b k : Z) :
  0 <= k -> 0 <= a < 2 ^ k -> Z.land a (Z.shiftl b k) = 0.
Proof.
  intros Hk Ha. apply Z.bits_inj'. intros n Hn.
  rewrite Z.land_spec, Z.bits_0.
  destruct (Z.lt_ge_cases n k) as [Hlt|Hge].
  - rewrite (Z.shiftl_spec_low b k n Hlt). apply andb_false_r.
  - replace (Z.testbit a n) with false; [reflexivity|].
    symmetry. destruct (Z.eq_dec a 0) as [->|Hne]; [apply Z.bits_0|].
    apply Z.bits_above_log2; [lia|].
    apply Z.log2_lt_pow2; [lia|].
    apply Z.lt_le_trans with (2 ^ k); [lia|].
    apply Z.pow_le_mono_r; lia.
Qed.

Lemma lor_shiftl_add (a b k : Z) :
  0 <= k -> 0 <= a < 2 ^ k -> Z.lor a (Z.shiftl b k) = a + b * 2 ^ k.
Proof.
  intros Hk Ha. rewrite <- Z.lxor_lor by (apply land_shiftl_small; assumption).
  rewrite <- Z.add_nocarry_lxor by (apply land_shiftl_small; assumption).
  rewrite Z.shiftl_mul_pow2 by exact Hk. reflexivity.
Qed.

Lemma Uint16_sum (b0 b1 : byte) :
  Uint16 [b0; b1] = Z_of_byte b0 + Z_of_byte b1 * 256.
Proof.
  pose proof (Z_of_byte_range b0). unfold Uint16.
  rewrite lor_shiftl_add by (change (2 ^ 8) with 256; lia).
  reflexivity.
Qed.

Lemma Uint32_sum (b0 b1 b2 b3 : byte) :
  Uint32 [b0; b1; b2; b3] =
    Z_of_byte b0 + Z_of_byte b1 * 256 + Z_of_byte b2 * 65536
    + Z_of_byte b3 * 16777216.
Proof.
  pose proof (Z_of_byte_range b0). pose proof (Z_of_byte_range b1).
  pose proof (Z_of_byte_range b2). unfold Uint32.
  rewrite (lor_shiftl_add (Z_of_byte b0)) by (change (2 ^ 8) with 256; lia).
  change (2 ^ 8) with 256.
  rewrite (lor_shiftl_add _ (Z_of_byte b2))
    by (change (2 ^ 16) with 65536; lia).
  change (2 ^ 16) with 65536.
  rewrite lor_shiftl_add by (change (2 ^ 24) with 16777216; lia).
  reflexivity.
Qed.

Lemma byte_of_Z_unique (x : Z) (c : byte) :
  x mod 256 = Z_of_byte c -> byte_of_Z x = c.
Proof.
  intros H. rewrite <- (byte_of_Z_of_byte c), <- H.
  rewrite <- (byte_of_Z_of_byte (byte_of_Z x)), Z_of_byte_of_Z.
  reflexivity.
Qed.

Lemma list_of_len_2 (d : list byte) :
  len d = 2 -> exists b0 b1, d = [b0; b1].
Proof.
  destruct d as [|b0 [|b1 [|b2 d]]]; intros H; unfold len in H;
    cbn [length] in H; try lia.
  eauto.
Qed.

Lemma list_of_len_4 (d : list byte) :
  len d = 4 -> exists b0 b1 b2 b3, d = [b0; b1; b2; b3].
Proof.
  destruct d as [|b0 [|b1 [|b2 [|b3 [|b4 d]]]]]; intros H; unfold len in H;
    cbn [length] in H; try lia.
  eauto.
Qed.

Lemma PutUint16_Uint16 (d : list byte) :
  len d = 2 -> PutUint16 (Uint16 d) = d /\ 0 <= Uint16 d < 2 ^ 16.
Proof.
  intros Hd. destruct (list_of_len_2 d Hd) as (b0 & b1 & ->).
  pose proof (Z_of_byte_range b0). pose proof (Z_of_byte_range b1).
  rewrite Uint16_sum. change (2 ^ 16) with 65536. split; [|lia].
  unfold PutUint16. rewrite Z.shiftr_div_pow2 by lia. change (2 ^ 8) with 256.
  f_equal; [|f_equal]; apply byte_of_Z_unique;
    Z.div_mod_to_equations; lia.
Qed.

Lemma PutUint32_Uint32 (d : list byte) :
  len d = 4 -> PutUint32 (Uint32 d) = d /\ 0 <= Uint32 d < 2 ^ 32.
Proof.
  intros Hd. destruct (list_of_len_4 d Hd) as (b0 & b1 & b2 & b3 & ->).
  pose proof (Z_of_byte_range b0). pose proof (Z_of_byte_range b1).
  pose proof (Z_of_byte_range b2). pose proof (Z_of_byte_range b3).
  rewrite Uint32_sum. change (2 ^ 32) with 4294967296. split; [|lia].
  unfold PutUint32. rewrite !Z.shiftr_div_pow2 by lia.
  change (2 ^ 8) with 256. change (2 ^ 16) with 65536.
  change (2 ^ 24) with 16777216.
  f_equal; [|f_equal; [|f_equal; [|f_equal]]]; apply byte_of_Z_unique;
    Z.div_mod_to_equations; lia.
Qed.

Lemma ReadUint16_success (b rest : Buffer) (v : Z) :
  ReadUint16 b = ((v, None), rest) ->
  b = PutUint16 v ++ rest /\ 0 <= v < 2 ^ 16.
Proof.
  intros H.
  destruct (ReadUint16_cases b) as [[_ HR]|(d & r & Hb & Hd & HR)];
    rewrite HR in H; [discriminate|].
  injection H as <- <-. destruct (PutUint16_Uint16 d Hd) as [-> Hr].
  split; [exact Hb|exact Hr].
Qed.

Lemma ReadUint32_success (b rest : Buffer) (v : Z) :
  ReadUint32 b = ((v, None), rest) ->
  b = PutUint32 v ++ rest /\ 0 <= v < 2 ^ 32.
Proof.
  intros H.
  destruct (ReadUint32_cases b) as [[_ HR]|(d & r & Hb & Hd & HR)];
    rewrite HR in H; [discriminate|].
  injection H as <- <-. destruct (PutUint32_Uint32 d Hd) as [-> Hr].
  split; [exact Hb|exact Hr].
Qed.

Lemma ReadString_success (b rest : Buffer) (s : gostring) :
  ReadString b = ((s, None), rest) ->
  b = s ++ x00 :: rest /\ ~ In x00 s.
Proof.
  intros H.
  destruct (ReadString_cases b) as [[_ HR]|(s' & r & Hb & Hs & HR)];
    rewrite HR in H; [discriminate|].
  injection H as <- <-. split; [exact Hb|exact Hs].
Qed.

Lemma ReadStrings_loop_success (n : nat) :
  forall (i : nat) (v : list gostring) (b rest : Buffer)
         (r : slice gostring),
    (i + n <= length v)%nat ->
    ReadStrings_loop n i v b = ((r, None), rest) ->
    exists l : list gostring,
      length l = n /\ r = Slice (take i v ++ l ++ drop (i + n) v) /\
      b = strings_bytes l ++ rest /\ Forall (fun s => ~ In x00 s) l.
Proof.
  induction n as [|n IH]; intros i v b rest r Hi; cbn [ReadStrings_loop].
  - unfold ret. intros [= <- <-]. exists []. rewrite Nat.add_0_r.
    cbn [app]. rewrite take_drop. repeat split. constructor.
  - unfold bind. destruct (ReadString b) as [[s [e|]] b1] eqn:ER;
      [unfold ret; discriminate|].
    intros H. destruct (ReadString_success _ _ _ ER) as [Hb Hs].
    apply IH in H; [|rewrite length_insert; lia].
    destruct H as (l & Hl & Hr & Hb1 & Hz).
    exists (s :: l). split; [cbn; lia|]. split.
    + rewrite Hr. f_equal.
      rewrite (take_S_r _ i s) by (apply list_lookup_insert_eq; lia).
      rewrite take_insert_ge by lia. rewrite drop_insert_lt by lia.
      replace (S i + n)%nat with (i + S n)%nat by lia.
      rewrite <- !app_assoc. reflexivity.
    + split; [|constructor; assumption].
      rewrite Hb, Hb1. unfold strings_bytes. cbn [map concat].
      rewrite <- !app_assoc. reflexivity.
Qed.

Lemma ReadStrings_success (b rest : Buffer) (r : slice gostring) :
  ReadStrings b = ((r, None), rest) ->
  exists l : list gostring,
    r = Slice l /\ len l < 2 ^ 16 /\ Forall (fun s => ~ In x00 s) l /\
    b = PutUint16 (len l) ++ strings_bytes l ++ rest.
Proof.
  unfold ReadStrings, bind.
  destruct (ReadUint16 b) as [[c [e|]] b1] eqn:ER; [unfold ret; discriminate|].
  destruct (ReadUint16_success _ _ _ ER) as [Hb Hc]. intros H.
  apply ReadStrings_loop_success in H; [|rewrite length_replicate; lia].
  destruct H as (l & Hl & Hr & Hb1 & Hz).
  exists l. cbn [take app] in Hr. rewrite Nat.add_0_l in Hr.
  rewrite drop_ge, app_nil_r in Hr by (rewrite length_replicate; lia).
  assert (Hlen : len l = c) by (unfold len; lia).
  rewrite Hlen. split; [exact Hr|]. split; [lia|]. split; [exact Hz|].
  rewrite Hb, Hb1. reflexivity.
Qed.

(** Whatever [ReadByte], [ReadUint16], [ReadUint32], [ReadFloat32],
    [ReadString], [ReadStrings] and [ReadByteArrayNoLength] decode without
    error is the encoding of the value they return followed by the bytes
    they leave: the integers are in the range of their width, the strings
    hold no zero byte, and fewer than 65536 of them are counted. *)
Theorem reads_accept_only_encodings (l : Z) (Hl : 0 <= l) :
  reads_only_encodings ReadByte WriteByte /\
  reads_only_encodings ReadUint16 WriteUint16 /\
  reads_only_encodings ReadUint32 WriteUint32 /\
  reads_only_encodings ReadFloat32 WriteFloat32 /\
  reads_only_encodings ReadString WriteString /\
  reads_only_encodings ReadStrings (fun v => WriteStrings (elems v)) /\
  reads_only_encodings (ReadByteArrayNoLength l)
    (fun v => WriteByteArrayNoLength (elems v)) /\
  (forall b rest v, ReadUint16 b = ((v, None), rest) -> 0 <= v < 2 ^ 16) /\
  (forall b rest v, ReadUint32 b = ((v, None), rest) -> 0 <= v < 2 ^ 32) /\
  (forall b rest s, ReadString b = ((s, None), rest) -> ~ In x00 s) /\
  (forall b rest v, ReadStrings b = ((v, None), rest) ->
     len (elems v) < 2 ^ 16 /\ Forall (fun s => ~ In x00 s) (elems v)).
Proof.
  split.
  { intros b rest v H.
    destruct (ReadByte_cases b) as [[_ HR]|(c & r & Hb & HR)];
      rewrite HR in H; [discriminate|].
    injection H as <- <-. exact Hb. }
  split.
  { intros b rest v H. rewrite WriteUint16_run.
    exact (proj1 (ReadUint16_success _ _ _ H)). }
  split.
  { intros b rest v H. rewrite WriteUint32_run.
    exact (proj1 (ReadUint32_success _ _ _ H)). }
  split.
  { intros b rest v. unfold ReadFloat32, WriteFloat32, bind.
    destruct (ReadUint32 b) as [[x [e|]] b1] eqn:ER; unfold ret;
      [discriminate|].
    intros [= <- <-]. rewrite WriteUint32_run.
    exact (proj1 (ReadUint32_success _ _ _ ER)). }
  split.
  { intros b rest v H. rewrite WriteString_run.
    destruct (ReadString_success _ _ _ H) as [Hb _].
    cbn [snd app]. rewrite <- app_assoc. exact Hb. }
  split.
  { intros b rest v H.
    destruct (ReadStrings_success _ _ _ H) as (s & -> & Hlen & _ & Hb).
    cbn [elems]. rewrite WriteStrings_run. unfold wrap.
    rewrite Z.mod_small by (unfold len in *; lia).
    cbn [snd app]. rewrite <- app_assoc. exact Hb. }
  split.
  { intros b rest v. unfold ReadByteArrayNoLength, bind.
    destruct (Buffer_Next_cases l b Hl) as [[Hlt HN]|(d & r & Hb & Hd & HN)];
      rewrite HN.
    - rewrite len_neq_negb by exact Hlt. unfold ret. discriminate.
    - rewrite Hd, Z.eqb_refl. unfold ret. cbn [negb]. intros [= <- <-].
      cbn [elems]. rewrite WriteByteArrayNoLength_run. exact Hb. }
  split; [intros b rest v H; exact (proj2 (ReadUint16_success _ _ _ H))|].
  split; [intros b rest v H; exact (proj2 (ReadUint32_success _ _ _ H))|].
  split; [intros b rest v H; exact (proj2 (ReadString_success _ _ _ H))|].
  intros b rest v H.
  destruct (ReadStrings_success _ _ _ H) as (s & -> & Hlen & Hz & _).
  split; [exact Hlen|exact Hz].
Qed.

Lemma reads_accept_only_encodings_witness :
  [x01; x00; x68; x69; x00; xff] =
    snd (WriteStrings [[x68; x69]] []) ++ [xff].
Proof.
  refine (proj1 (proj2 (proj2 (proj2 (proj2 (proj2
            (reads_accept_only_encodings 0 _))))))
            [x01; x00; x68; x69; x00; xff] [xff] (Slice [[x68; x69]]) _).
  - discriminate.
  - reflexivity.
Defined.

(** ** Byte arrays written without their lengths *)



(** ** Nested objects and full timestamps *)

(** What [WriteMarshaller] and [WriteTime] write is what [ReadMarshaller]
    and [ReadTime] hand to the decoder: a failing [MarshalBinary] or
    [GobEncode] leaves the buffer untouched and its error is returned; a
    successful one is written as a byte array, from which
    [ReadMarshaller] gives [UnmarshalBinary] exactly those bytes and
    returns its answer, and [ReadTime] returns what [GobDecode] makes of
    them, each leaving what follows unread. *)
Theorem nested_objects_codec
  (UnmarshalBinary : list byte -> option error)
  (GobEncode : Time -> list byte * option error)
  (t : Time) (v : list byte) (e : error) (b rest : Buffer) :
  len v < 2 ^ 32 ->
  WriteMarshaller (v, Some e) b = (Some e, b) /\
  WriteMarshaller (v, None) b = (None, b ++ PutUint32 (len v) ++ v) /\
  ReadMarshaller UnmarshalBinary (snd (WriteMarshaller (v, None) []) ++ rest)
    = (UnmarshalBinary v, rest) /\
  (GobEncode t = (v, Some e) -> WriteTime GobEncode t b = (Some e, b)) /\
  (GobEncode t = (v, None) ->
   WriteTime GobEncode t b = (None, b ++ PutUint32 (len v) ++ v) /\
   ReadTime (snd (WriteTime GobEncode t []) ++ rest) =
     ((fst (Time_GobDecode Time_zero v), None), rest)).
Proof.
  intros Hv.
  assert (Hw : wrap 32 (len v) = len v)
    by (unfold wrap; apply Z.mod_small; unfold len in *; lia).
  assert (HW : forall b', WriteByteArray v b' =
                          (None, b' ++ PutUint32 (len v) ++ v))
    by (intros b'; rewrite WriteByteArray_run, Hw; reflexivity).
  assert (HR : ReadByteArray ((PutUint32 (len v) ++ v) ++ rest) =
               ((Slice v, None), rest)).
  { rewrite <- app_assoc, <- Hw. apply ReadByteArray_run, Hv. }
  split; [reflexivity|]. split; [apply HW|]. split.
  { unfold WriteMarshaller. rewrite HW. cbn [snd app].
    unfold ReadMarshaller, bind. rewrite HR. reflexivity. }
  split.
  { intros HG. unfold WriteTime. rewrite HG. reflexivity. }
  intros HG. unfold WriteTime. rewrite HG. split; [apply HW|].
  rewrite HW. cbn [snd app]. unfold ReadTime, bind. rewrite HR. reflexivity.
Qed.

(** In the witness the object is the version 1 encoding of the instant
    one second and two nanoseconds after the zero Time, in UTC. *)
Lemma nested_objects_codec_witness :
  ReadTime
    (snd (WriteTime
            (fun _ => ([x01; x00; x00; x00; x00; x00; x00; x00; x01;
                        x00; x00; x00; x02; xff; xff], None)) 5 [])
     ++ [x07]) =
  ((1000000002, None), [x07]).
Proof.
  refine (proj2 (proj2 (proj2 (proj2 (proj2
            (nested_objects_codec (fun _ => None)
               (fun _ => ([x01; x00; x00; x00; x00; x00; x00; x00; x01;
                           x00; x00; x00; x02; xff; xff], None))
               5 [x01; x00; x00; x00; x00; x00; x00; x00; x01;
                  x00; x00; x00; x02; xff; xff] EOF [] [x07] _)))) _)).
  - reflexivity.
  - reflexivity.
Defined.

(** ** Decoding dates *)

Lemma wrap_int64_id (x : Z) :
  wrap_int64 x = x <-> - 2 ^ 63 <= x < 2 ^ 63.
Proof.
  unfold wrap_int64. split.
  - intros H. assert (Hp : 0 < 2 ^ 64) by reflexivity.
    pose proof (Z.mod_pos_bound (x + 2 ^ 63) (2 ^ 64) Hp).
    change (2 ^ 64) with (2 * 2 ^ 63) in *. lia.
  - intros H. rewrite Z.mod_small; [lia|].
    change (2 ^ 64) with (2 * 2 ^ 63). lia.
Qed.

Section DateDecoding.

Variable IoDateBase : Time.
Variable conv : Z -> float64 -> Z.

(** [ReadDateFromUInt32] decodes the four bytes of [i] to
    [GetDateFromMinutes i].  That is the epoch plus [i] minutes exactly
    when [i] is at most 153722867, the minutes of the largest Duration:
    above it the int64 product of the minutes and [time.Minute] wraps.
    Up to that bound [GetDateInMinutes] gives [i] back.  [ReadDate]
    decodes the two bytes of [d] to the epoch plus [d] days, for every
    [d] of 16 bits. *)
Theorem date_decoders_exact (i d : Z) (rest : Buffer) :
  0 <= i < 2 ^ 32 -> 0 <= d < 2 ^ 16 ->
  ReadDateFromUInt32 IoDateBase (PutUint32 i ++ rest) =
    ((GetDateFromMinutes IoDateBase i, None), rest) /\
  (GetDateFromMinutes IoDateBase i = IoDateBase + i * Minute <->
   i <= 153722867) /\
  (i <= 153722867 ->
   GetDateInMinutes IoDateBase conv (GetDateFromMinutes IoDateBase i) = i) /\
  ReadDate IoDateBase (PutUint16 d ++ rest) =
    ((IoDateBase + d * (24 * Hour), None), rest).
Proof.
  intros Hi Hd.
  assert (Hiff : wrap_int64 (Minute * i) = Minute * i <-> i <= 153722867).
  { rewrite wrap_int64_id. unfold Minute, Second. lia. }
  split.
  { unfold ReadDateFromUInt32, bind. rewrite ReadUint32_run by exact Hi.
    unfold ret, GetDateFromMinutes, Duration_mul.
    rewrite (Z.mul_comm i Minute).
    reflexivity. }
  split.
  { unfold GetDateFromMinutes, Time_Add, Duration_mul.
    rewrite <- Hiff. lia. }
  split.
  { intros Hle. unfold GetDateFromMinutes, Time_Add, Duration_mul.
    rewrite (proj2 Hiff Hle).
    rewrite GetDateInMinutes_whole_minutes.
    - replace (IoDateBase + Minute * i - IoDateBase) with (i * Minute)
        by lia.
      apply Z.div_mul. discriminate.
    - unfold maxDuration, Minute, Second. lia.
    - replace (IoDateBase + Minute * i - IoDateBase) with (i * Minute)
        by lia.
      rewrite Z.mod_mul by discriminate. discriminate. }
  unfold ReadDate, bind. rewrite ReadUint16_run by exact Hd.
  unfold ret, Time_Add, Duration_mul.
  assert (H1 : wrap_int64 (d * Hour) = d * Hour).
  { apply wrap_int64_id. unfold Hour, Minute, Second. lia. }
  rewrite H1.
  assert (H2 : wrap_int64 (d * Hour * 24) = d * Hour * 24).
  { apply wrap_int64_id. unfold Hour, Minute, Second. lia. }
  rewrite H2. do 2 f_equal. f_equal. lia.
Qed.

End DateDecoding.

(** In the witness the minutes are those of the largest Duration and the
    days the largest of 16 bits. *)
Lemma date_decoders_exact_witness :
  GetDateInMinutes epoch_2020 conv_zero
    (GetDateFromMinutes epoch_2020 153722867) = 153722867 /\
  ReadDate epoch_2020 (PutUint16 65535 ++ [x07]) =
    ((epoch_2020 + 65535 * (24 * Hour), None), [x07]).
Proof.
  split.
  - refine (proj1 (proj2 (proj2
              (date_decoders_exact epoch_2020 conv_zero 153722867 65535 []
                 _ _))) _).
    + split; [discriminate|reflexivity].
    + split; [discriminate|reflexivity].
    + discriminate.
  - refine (proj2 (proj2 (proj2
              (date_decoders_exact epoch_2020 conv_zero 153722867 65535
                 [x07] _ _)))).
    + split; [discriminate|reflexivity].
    + split; [discriminate|reflexivity].
Defined.

(** ** Dates in days *)

(** The fraction of an hour: the quotient of the remaining nanoseconds by
    the nanoseconds of an hour, as a float64, is a normal number that
    stays at or below [1 - 2^-31] as long as 2000 ns or more are missing
    to the hour. *)
Lemma hour_fraction_bound (nsec : Z) :
  0 < nsec <= Hour - 2000 ->
  exists (mq : positive) (eq : Z),
    float64_div (float64_of_int nsec)
                (float64_of_int (60 * 60 * 1000000000))
      = S754_finite false mq eq /\
    -100 <= eq <= -53 /\ Zpos (digits2_pos mq) = 53 /\
    Zpos mq * 2 ^ 31 <= (2 ^ 31 - 1) * 2 ^ (- eq).
Proof.
  unfold Hour, Minute, Second. intros Hn.
  destruct nsec as [|z|z]; [lia| |lia].
  assert (Hz : Zpos z < 2 ^ 42) by lia.
  pose proof (pow2_digits_le z 42 ltac:(lia) Hz) as Hdz.
  pose proof (Pos2Z.is_pos (digits2_pos z)) as Hdz0.
  destruct (float64_of_int_exact z) as (m1 & -> & Hm1 & Hd1); [lia|].
  set (dz := Zpos (digits2_pos z)) in *.
  change (float64_of_int (60 * 60 * 1000000000))
    with (S754_finite false 7372800000000000 (-11)).
  unfold float64_div. cbn [SFdiv xorb].
  rewrite SFdiv_core_binary_spec by (try reflexivity; try assumption; lia).
  set (m2 := 7372800000000000%positive) in *.
  pose proof (digits2_pos_spec m1) as Hs1. rewrite Hd1 in Hs1.
  set (qq := Zpos m1 * 2 ^ 53 / Zpos m2).
  assert (Hqq : 2 ^ 52 <= qq < 2 ^ 54).
  { unfold qq, m2. split.
    - apply Z.div_le_lower_bound; lia.
    - apply Z.div_lt_upper_bound; lia. }
  assert (Hqm : qq * Zpos m2 <= Zpos m1 * 2 ^ 53).
  { unfold qq. rewrite Z.mul_comm. apply Z.mul_div_le. lia. }
  set (P := 2 ^ (64 - dz)).
  assert (HP : 2 ^ 22 <= P) by (apply Z.pow_le_mono_r; lia).
  assert (Hm1P : Zpos m1 * 2 ^ 53 = Zpos z * 2 ^ 31 * P * 2 ^ 11).
  { rewrite Hm1. unfold P.
    replace (Zpos z * 2 ^ (53 - dz) * 2 ^ 53)
      with (Zpos z * (2 ^ (53 - dz) * 2 ^ 53)) by ring.
    rewrite <- Z.pow_add_r by lia.
    replace (Zpos z * 2 ^ 31 * 2 ^ (64 - dz) * 2 ^ 11)
      with (Zpos z * (2 ^ 31 * 2 ^ (64 - dz) * 2 ^ 11)) by ring.
    rewrite <- !Z.pow_add_r by lia. f_equal. f_equal. lia. }
  assert (Hex : 2 ^ (- (dz - 53 - -11 - 53)) = 2 ^ 31 * P).
  { unfold P. rewrite <- Z.pow_add_r by lia. f_equal. lia. }
  assert (HzP : Zpos z * P <= (60 * 60 * 1000000000 - 2000) * P)
    by (apply Z.mul_le_mono_nonneg_r; lia).
  assert (Hbound : qq + 2 <= (2 ^ 31 - 1) * P) by (unfold m2 in Hqm; lia).
  destruct qq as [|qp|qp] eqn:Eqq; [lia| |lia].
  pose proof (digits2_pos_spec qp) as Hsq.
  assert (Hdq : 53 <= Zpos (digits2_pos qp) <= 54).
  { split.
    - destruct (Z.le_gt_cases 53 (Zpos (digits2_pos qp))) as [H|H]; [exact H|].
      assert (2 ^ Zpos (digits2_pos qp) <= 2 ^ 52)
        by (apply Z.pow_le_mono_r; lia). lia.
    - apply pow2_digits_le; lia. }
  destruct (binary_round_aux_spec qp (dz - 53 - -11 - 53)
              (new_location (Zpos m2) (Zpos m1 * 2 ^ 53 mod Zpos m2)))
    as (m' & e' & mr & Hr & Hmr & Hcase); [lia|lia|lia|].
  pose proof (leading_bits_range qp ltac:(lia)) as Hhi.
  set (n := Zpos (digits2_pos qp) - 53) in *.
  set (ex := dz - 53 - -11 - 53) in *.
  assert (Hn01 : n = 0 \/ n = 1) by lia.
  assert (Hdiv : Zpos qp / 2 ^ n * 2 ^ n <= Zpos qp).
  { rewrite Z.mul_comm. apply Z.mul_div_le. apply Z.pow_pos_nonneg; lia. }
  assert (Hmrn : mr * 2 ^ n <= (2 ^ 31 - 1) * P).
  { destruct Hn01 as [Hn0|Hn1]; rewrite ?Hn0, ?Hn1 in *;
      change (2 ^ 0) with 1 in *; change (2 ^ 1) with 2 in *;
      destruct Hmr as [->|[-> _]]; lia. }
  assert (Hscaled : Zpos m' * 2 ^ 31 <= (2 ^ 31 - 1) * 2 ^ (- e') /\
                    2 ^ 52 <= Zpos m' < 2 ^ 53 /\ ex <= e' <= ex + 2).
  { destruct Hcase as [(Hlt & -> & ->)|(Hc & -> & ->)].
    - split; [|split; [destruct Hmr as [->|[-> _]]; lia|lia]].
      assert (Hsplit : 2 ^ (- ex) = 2 ^ (- (ex + n)) * 2 ^ n)
        by (rewrite <- Z.pow_add_r by lia; f_equal; lia).
      rewrite Hex in Hsplit.
      assert (0 < 2 ^ n) by (apply Z.pow_pos_nonneg; lia).
      assert (0 <= 2 ^ (- (ex + n))) by (apply Z.pow_nonneg; lia).
      nia.
    - split; [|split; [lia|lia]].
      assert (Hsplit : 2 ^ (- ex) = 2 ^ (- (ex + n + 1)) * (2 * 2 ^ n))
        by (rewrite <- Z.pow_succ_r, <- Z.pow_add_r by lia; f_equal; lia).
      rewrite Hex in Hsplit.
      assert (0 < 2 ^ n) by (apply Z.pow_pos_nonneg; lia).
      assert (0 <= 2 ^ (- (ex + n + 1))) by (apply Z.pow_nonneg; lia).
      rewrite Hc in Hmrn. nia. }
  destruct Hscaled as (Hs & Hlo & Hge).
  exists m', e'. split; [exact Hr|].
  assert (He53 : e' <= -53).
  { destruct (Z.le_gt_cases e' (-53)) as [H|H]; [exact H|].
    assert (2 ^ (- e') <= 2 ^ 52).
    { destruct (Z.le_gt_cases 0 (- e')).
      - apply Z.pow_le_mono_r; lia.
      - rewrite Z.pow_neg_r by lia. lia. }
    lia. }
  split; [unfold ex in Hge; lia|].
  split; [apply digits2_pos_unique; lia|exact Hs].
Qed.

(** Adding a fraction at or below [1 - 2^-31] to a positive whole number
    below 2^21: the float64 sum has the exponent of the whole number and
    lies between it and the next whole number less [2^-31]. *)
Lemma whole_plus_hour_fraction (z : positive) (q : float64) :
  Zpos z < 2 ^ 21 ->
  (q = S754_zero false \/
   exists (mq : positive) (eq : Z),
     q = S754_finite false mq eq /\ -1074 <= eq <= -53 /\
     Zpos mq * 2 ^ 31 <= (2 ^ 31 - 1) * 2 ^ (- eq)) ->
  exists mH : positive,
    float64_add (float64_of_int (Zpos z)) q =
      S754_finite false mH (Zpos (digits2_pos z) - 53) /\
    Zpos (digits2_pos mH) = 53 /\
    Zpos z * 2 ^ (53 - Zpos (digits2_pos z)) <= Zpos mH /\
    Zpos mH <= (Zpos z + 1) * 2 ^ (53 - Zpos (digits2_pos z))
               - 2 ^ (53 - Zpos (digits2_pos z) - 31).
Proof.
  intros Hz Hq.
  assert (Hfrac : forall (mq : positive) (eq : Z),
             -1074 <= eq <= -53 ->
             Zpos mq * 2 ^ 31 <= (2 ^ 31 - 1) * 2 ^ (- eq) ->
             Zpos mq < 2 ^ (- eq)).
  { intros mq eq He Hb.
    assert (0 < 2 ^ (- eq)) by (apply Z.pow_pos_nonneg; lia). lia. }
  pose proof (pow2_digits_le z 21 ltac:(lia) ltac:(lia)) as Hdz.
  pose proof (Pos2Z.is_pos (digits2_pos z)) as Hdz0.
  pose proof (digits2_pos_spec z) as Hsz.
  destruct (float64_of_int_exact z) as (mm & -> & Hmm & Hdm); [lia|].
  set (dz := Zpos (digits2_pos z)) in *.
  set (km := 53 - dz) in *.
  assert (Hkm : 2 ^ km = 2 ^ 31 * 2 ^ (km - 31))
    by (rewrite <- Z.pow_add_r by lia; f_equal; lia).
  assert (HA' : 2 <= 2 ^ (km - 31))
    by (change 2 with (2 ^ 1) at 1; apply Z.pow_le_mono_r; lia).
  destruct Hq as [->|(mq & eq & -> & He & Hb)].
  - (* no fraction *)
    exists mm. unfold float64_add. cbn [SFadd].
    split; [reflexivity|]. split; [exact Hdm|]. lia.
  - pose proof (Hfrac mq eq He Hb) as Hlt.
    set (L := - eq) in *.
    set (n := L - km).
    assert (HL : 2 ^ L = 2 ^ km * 2 ^ n)
      by (rewrite <- Z.pow_add_r by lia; f_equal; lia).
    assert (HB : 0 < 2 ^ n) by (apply Z.pow_pos_nonneg; lia).
    unfold float64_add. cbn [SFadd].
    replace (Z.min (dz - 53) eq) with eq by lia.
    assert (Ha1 : Zpos (fst (shl_align mm (dz - 53) eq)) = Zpos z * 2 ^ L).
    { unfold shl_align. destruct (eq - (dz - 53)) as [|k|k] eqn:Ek; [lia|lia|].
      cbn [fst]. rewrite iter_xO_spec, Hmm.
      replace (Zpos k) with n by lia. rewrite HL. fold km. ring. }
    assert (Ha2 : fst (shl_align mq eq eq) = mq)
      by (unfold shl_align; rewrite Z.sub_diag; reflexivity).
    rewrite Ha2. cbn [cond_Zopp]. rewrite <- Pos2Z.inj_add.
    cbn [binary_normalize].
    set (sm := (fst (shl_align mm (dz - 53) eq) + mq)%positive).
    assert (Hsm : Zpos sm = Zpos z * 2 ^ L + Zpos mq)
      by (rewrite <- Ha1; unfold sm; lia).
    assert (Hds : Zpos (digits2_pos sm) = dz + L).
    { apply digits2_pos_unique. rewrite Hsm.
      replace (dz + L - 1) with ((dz - 1) + L) by lia.
      rewrite !Z.pow_add_r by lia. nia. }
    unfold binary_round. rewrite Hds.
    replace (fexp 53 1024 (dz + L + eq)) with (dz - 53)
      by (unfold fexp, emin, L; lia).
    unfold shl_align at 1.
    destruct (dz - 53 - eq) as [|k|k] eqn:Ek; [lia| |lia].
    destruct (binary_round_aux_spec sm eq loc_Exact)
      as (m' & e' & mr & Hr & Hmr & Hcase); [lia|lia|lia|].
    rewrite Hr. rewrite Hds in Hmr, Hcase.
    replace (dz + L - 53) with n in Hmr, Hcase by (unfold n, km; lia).
    assert (Hhi : Zpos sm / 2 ^ n = Zpos z * 2 ^ km + Zpos mq / 2 ^ n).
    { rewrite Hsm, HL.
      replace (Zpos z * (2 ^ km * 2 ^ n) + Zpos mq)
        with (Zpos mq + Zpos z * 2 ^ km * 2 ^ n) by ring.
      rewrite Z.div_add by lia. ring. }
    assert (Hmod : Zpos sm mod 2 ^ n = Zpos mq mod 2 ^ n).
    { rewrite Hsm, HL.
      replace (Zpos z * (2 ^ km * 2 ^ n) + Zpos mq)
        with (Zpos mq + Zpos z * 2 ^ km * 2 ^ n) by ring.
      apply Z.mod_add. lia. }
    rewrite Hhi, Hmod in Hmr.
    pose proof (Z.div_mod (Zpos mq) (2 ^ n) ltac:(lia)) as Hdm'.
    pose proof (Z.mod_pos_bound (Zpos mq) (2 ^ n) HB) as Hrm.
    assert (HX : Zpos mq <= (2 ^ 31 - 1) * (2 ^ (km - 31) * 2 ^ n))
      by (rewrite HL, Hkm in Hb; nia).
    assert (Hq1 : Zpos mq / 2 ^ n <= (2 ^ 31 - 1) * 2 ^ (km - 31))
      by (apply Z.div_le_upper_bound; [exact HB|]; nia).
    assert (Hq2 : Zpos mq mod 2 ^ n <> 0 ->
                  Zpos mq / 2 ^ n < (2 ^ 31 - 1) * 2 ^ (km - 31)).
    { intros Hnz. apply Z.div_lt_upper_bound; [exact HB|].
      destruct (Z.eq_dec (Zpos mq) ((2 ^ 31 - 1) * 2 ^ (km - 31) * 2 ^ n))
        as [E|E]; [|lia].
      exfalso. apply Hnz. rewrite E. apply Z.mod_mul. lia. }
    assert (Hbounds : Zpos z * 2 ^ km <= mr /\
                      mr <= (Zpos z + 1) * 2 ^ km - 2 ^ (km - 31)).
    { pose proof (Z.div_pos (Zpos mq) (2 ^ n) ltac:(lia) HB).
      destruct Hmr as [->|[-> Hnz]];
        [|specialize (Hq2 (Hnz eq_refl))]; lia. }
    assert (Hz53 : (Zpos z + 1) * 2 ^ km <= 2 ^ 53).
    { replace (2 ^ 53) with (2 ^ dz * 2 ^ km)
        by (rewrite <- Z.pow_add_r by lia; f_equal; unfold km; lia).
      apply Z.mul_le_mono_nonneg_r; lia. }
    assert (Hz52 : 2 ^ 52 <= Zpos z * 2 ^ km).
    { replace (2 ^ 52) with (2 ^ (dz - 1) * 2 ^ km)
        by (rewrite <- Z.pow_add_r by lia; f_equal; unfold km; lia).
      apply Z.mul_le_mono_nonneg_r; lia. }
    destruct Hcase as [(_ & -> & Hm')|(Hc & _)]; [|lia].
    exists m'. split; [f_equal; unfold n, km, L; lia|].
    rewrite Hm'. split; [apply digits2_pos_unique; lia|].
    fold km. lia.
Qed.

(** The integer part of a finite float64 below one is zero, and the one
    of a float64 between two consecutive whole numbers is the lower. *)
Lemma float64_trunc_between (m : positive) (e N : Z) :
  e <= 0 -> N * 2 ^ (- e) <= Zpos m < (N + 1) * 2 ^ (- e) ->
  float64_trunc (S754_finite false m e) = Some N.
Proof.
  intros He Hb. cbn [float64_trunc cond_Zopp].
  rewrite Z.shiftl_div_pow2 by lia. f_equal. symmetry.
  assert (0 < 2 ^ (- e)) by (apply Z.pow_pos_nonneg; lia).
  apply Z.div_unique with (r := Zpos m - N * 2 ^ (- e)); [left|]; lia.
Qed.

(** Dividing by 24 a float64 that lies between a whole number of hours
    below 2^21 and the next one less [2^-31]: the integer part of the
    quotient is the whole number of days. *)
Lemma hours_by_24_trunc (z mH : positive) :
  Zpos z < 2 ^ 21 ->
  Zpos (digits2_pos mH) = 53 ->
  Zpos z * 2 ^ (53 - Zpos (digits2_pos z)) <= Zpos mH ->
  Zpos mH <= (Zpos z + 1) * 2 ^ (53 - Zpos (digits2_pos z))
             - 2 ^ (53 - Zpos (digits2_pos z) - 31) ->
  float64_trunc
    (float64_div (S754_finite false mH (Zpos (digits2_pos z) - 53))
                 (float64_of_int 24)) = Some (Zpos z / 24).
Proof.
  intros Hz HdH Hlo Hhi.
  pose proof (pow2_digits_le z 21 ltac:(lia) ltac:(lia)) as Hdz.
  pose proof (Pos2Z.is_pos (digits2_pos z)) as Hdz0.
  set (dz := Zpos (digits2_pos z)) in *.
  set (km := 53 - dz) in *.
  set (B := 2 ^ (km - 31)) in *.
  assert (HB : 2 <= B)
    by (unfold B; change 2 with (2 ^ 1) at 1; apply Z.pow_le_mono_r; lia).
  assert (Hkm : 2 ^ km = 2147483648 * B).
  { unfold B. change 2147483648 with (2 ^ 31).
    rewrite <- Z.pow_add_r by lia. f_equal. lia. }
  rewrite Hkm in Hlo, Hhi.
  (* the days and the hours left *)
  set (N := Zpos z / 24).
  pose proof (Z.div_mod (Zpos z) 24 ltac:(lia)) as Hzs. fold N in Hzs.
  pose proof (Z.mod_pos_bound (Zpos z) 24 ltac:(lia)) as Hs.
  assert (HN : 0 <= N) by (apply Z.div_pos; lia).
  assert (HNB : 0 <= N * B) by (apply Z.mul_nonneg_nonneg; lia).
  assert (HzB : Zpos z * B = 24 * (N * B) + Zpos z mod 24 * B)
    by (rewrite Hzs at 1; ring).
  assert (HsB : 0 <= Zpos z mod 24 * B <= 23 * B)
    by (split; [apply Z.mul_nonneg_nonneg; lia|
                apply Z.mul_le_mono_nonneg_r; lia]).
  change (float64_of_int 24) with (S754_finite false 6755399441055744 (-48)).
  unfold float64_div. cbn [SFdiv xorb].
  rewrite SFdiv_core_binary_spec by (try reflexivity; try assumption; lia).
  set (m2 := 6755399441055744%positive) in *.
  pose proof (digits2_pos_spec mH) as HsH. rewrite HdH in HsH.
  set (qq := Zpos mH * 2 ^ 53 / Zpos m2).
  assert (Hqq : 2 ^ 52 <= qq < 2 ^ 54).
  { unfold qq, m2. split.
    - apply Z.div_le_lower_bound; lia.
    - apply Z.div_lt_upper_bound; lia. }
  assert (Hq3 : 3 * qq <= 4 * Zpos mH < 3 * qq + 3).
  { pose proof (Z.div_mod (Zpos mH * 2 ^ 53) (Zpos m2) ltac:(lia)) as Hdm.
    pose proof (Z.mod_pos_bound (Zpos mH * 2 ^ 53) (Zpos m2) ltac:(lia)) as Hm.
    fold qq in Hdm.
    set (r := (Zpos mH * 2 ^ 53) mod Zpos m2) in Hdm, Hm.
    unfold m2 in Hdm, Hm. lia. }
  destruct qq as [|qp|qp] eqn:Eqq; [lia| |lia].
  pose proof (digits2_pos_spec qp) as Hsq.
  assert (Hdq : 53 <= Zpos (digits2_pos qp) <= 54).
  { split.
    - destruct (Z.le_gt_cases 53 (Zpos (digits2_pos qp))) as [H|H]; [exact H|].
      assert (2 ^ Zpos (digits2_pos qp) <= 2 ^ 52)
        by (apply Z.pow_le_mono_r; lia). lia.
    - apply pow2_digits_le; lia. }
  destruct (binary_round_aux_spec qp (dz - 53 - -48 - 53)
              (new_location (Zpos m2) (Zpos mH * 2 ^ 53 mod Zpos m2)))
    as (m' & e' & mr & Hr & Hmr & Hcase); [lia|lia|lia|].
  rewrite Hr.
  set (n := Zpos (digits2_pos qp) - 53) in *.
  set (ex := dz - 53 - -48 - 53) in *.
  assert (Hn01 : n = 0 \/ n = 1) by lia.
  (* the scale of the result: [2 ^ E * 2 ^ n = 32 * 2 ^ km] *)
  set (E := - (ex + n)).
  assert (HE : 2 ^ E * 2 ^ n = 68719476736 * B).
  { unfold E, B. change 68719476736 with (2 ^ 36).
    rewrite <- !Z.pow_add_r by lia. f_equal. unfold ex, km. lia. }
  assert (HEpos : 0 < 2 ^ E) by (apply Z.pow_pos_nonneg; unfold E, ex; lia).
  assert (Hdiv : Zpos qp / 2 ^ n * 2 ^ n <= Zpos qp < (Zpos qp / 2 ^ n + 1) * 2 ^ n).
  { assert (H2n : 0 < 2 ^ n) by (apply Z.pow_pos_nonneg; lia).
    pose proof (Z.div_mod (Zpos qp) (2 ^ n) ltac:(lia)).
    pose proof (Z.mod_pos_bound (Zpos qp) (2 ^ n) H2n). lia. }
  assert (Hbetween : N * 2 ^ E <= mr < (N + 1) * 2 ^ E).
  { assert (Hlow : N * (2 ^ E * 2 ^ n) <= Zpos qp) by (rewrite HE; lia).
    assert (Hup : Zpos qp + 2 < (N + 1) * (2 ^ E * 2 ^ n))
      by (rewrite HE; lia).
    destruct Hn01 as [Hn0|Hn1]; rewrite ?Hn0, ?Hn1 in *;
      change (2 ^ 0) with 1 in *; change (2 ^ 1) with 2 in *;
      destruct Hmr as [->|[-> _]]; lia. }
  destruct Hcase as [(_ & -> & Hm')|(Hc & -> & Hm')].
  - apply float64_trunc_between; [unfold ex; lia|].
    rewrite Hm'. fold E. exact Hbetween.
  - apply float64_trunc_between; [unfold ex; lia|].
    assert (HE1 : 2 ^ E = 2 * 2 ^ (- (ex + n + 1))).
    { rewrite <- Z.pow_succ_r by (unfold ex; lia). f_equal. unfold E. lia. }
    rewrite HE1, Hc in Hbetween. rewrite Hm'.
    change (2 ^ 53) with (2 * 2 ^ 52) in Hbetween. lia.
Qed.

(** A float64 fraction of an hour alone, divided by 24, is below one. *)
Lemma fraction_by_24_trunc (mq : positive) (eq : Z) :
  -100 <= eq <= -53 -> Zpos (digits2_pos mq) = 53 ->
  float64_trunc
    (float64_div (S754_finite false mq eq) (float64_of_int 24)) = Some 0.
Proof.
  intros He Hdq.
  change (float64_of_int 24) with (S754_finite false 6755399441055744 (-48)).
  unfold float64_div. cbn [SFdiv xorb].
  rewrite SFdiv_core_binary_spec by (try reflexivity; try assumption; lia).
  set (m2 := 6755399441055744%positive) in *.
  pose proof (digits2_pos_spec mq) as Hsq. rewrite Hdq in Hsq.
  set (qq := Zpos mq * 2 ^ 53 / Zpos m2).
  assert (Hqq : 2 ^ 52 <= qq < 2 ^ 54).
  { unfold qq, m2. split.
    - apply Z.div_le_lower_bound; lia.
    - apply Z.div_lt_upper_bound; lia. }
  destruct qq as [|qp|qp] eqn:Eqq; [lia| |lia].
  assert (Hdqp : 53 <= Zpos (digits2_pos qp) <= 54).
  { pose proof (digits2_pos_spec qp) as Hs. split.
    - destruct (Z.le_gt_cases 53 (Zpos (digits2_pos qp))) as [H|H]; [exact H|].
      assert (2 ^ Zpos (digits2_pos qp) <= 2 ^ 52)
        by (apply Z.pow_le_mono_r; lia). lia.
    - apply pow2_digits_le; lia. }
  destruct (binary_round_aux_spec qp (eq - -48 - 53)
              (new_location (Zpos m2) (Zpos mq * 2 ^ 53 mod Zpos m2)))
    as (m' & e' & mr & Hr & Hmr & Hcase); [lia|lia|lia|].
  rewrite Hr.
  assert (Hm' : Zpos m' < 2 ^ 53 /\ e' <= -53)
    by (destruct Hcase as [(? & -> & ?)|(? & -> & ?)]; lia).
  apply float64_trunc_between; [lia|].
  assert (2 ^ 53 <= 2 ^ (- e')) by (apply Z.pow_le_mono_r; lia). lia.
Qed.

Section DateDays.

Variable IoDateBase : Time.
Variable conv : Z -> float64 -> Z.

(** The days written for a time less than 65536 days after the epoch
    and not within the last 2000 ns of an hour. *)
Lemma WriteDate_whole_days (t : Time) :
  0 <= t - IoDateBase < 65536 * (24 * Hour) ->
  (t - IoDateBase) mod Hour <= Hour - 2000 ->
  uint_of_float64 conv 16
    (float64_div (Duration_Hours (Time_Sub t IoDateBase))
                 (float64_of_int 24)) = (t - IoDateBase) / (24 * Hour).
Proof.
  intros Hd Hns.
  rewrite Time_Sub_in_range
    by (unfold minDuration, maxDuration, Hour, Minute, Second in *; lia).
  set (d := t - IoDateBase) in *. unfold Duration_Hours.
  assert (HH : 0 < Hour) by reflexivity.
  rewrite Z.quot_div_nonneg, Z.rem_mod_nonneg by lia.
  pose proof (Z.mod_pos_bound d Hour HH) as Hmod.
  assert (Hh : 0 <= d / Hour < 2 ^ 21).
  { split; [apply Z.div_pos; lia|].
    apply Z.div_lt_upper_bound; [exact HH|].
    unfold Hour, Minute, Second in *. lia. }
  assert (Hdays : d / (24 * Hour) = d / Hour / 24)
    by (rewrite (Z.mul_comm 24 Hour), Z.div_div by lia; reflexivity).
  assert (HN : 0 <= d / (24 * Hour) < 2 ^ 16).
  { split; [apply Z.div_pos; lia|].
    apply Z.div_lt_upper_bound; [lia|].
    change (2 ^ 16) with 65536. lia. }
  assert (Hq : d mod Hour = 0 \/
               exists (mq : positive) (eq : Z),
                 float64_div (float64_of_int (d mod Hour))
                             (float64_of_int (60 * 60 * 1000000000))
                   = S754_finite false mq eq /\
                 -100 <= eq <= -53 /\ Zpos (digits2_pos mq) = 53 /\
                 Zpos mq * 2 ^ 31 <= (2 ^ 31 - 1) * 2 ^ (- eq)).
  { destruct (Z.eq_dec (d mod Hour) 0) as [H0|Hnz]; [left; exact H0|].
    right. apply hour_fraction_bound. lia. }
  assert (Htrunc : float64_trunc
                     (float64_div
                        (float64_add (float64_of_int (d / Hour))
                           (float64_div (float64_of_int (d mod Hour))
                              (float64_of_int (60 * 60 * 1000000000))))
                        (float64_of_int 24)) = Some (d / (24 * Hour))).
  { rewrite Hdays. destruct (d / Hour) as [|z|z] eqn:Eh; [| |lia].
    - (* less than an hour *)
      destruct Hq as [->|(mq & eq & -> & He & Hdq & _)]; [reflexivity|].
      change (float64_add (float64_of_int 0) (S754_finite false mq eq))
        with (S754_finite false mq eq).
      apply fraction_by_24_trunc; assumption.
    - destruct (whole_plus_hour_fraction z
                  (float64_div (float64_of_int (d mod Hour))
                               (float64_of_int (60 * 60 * 1000000000))))
        as (mH & -> & HdH & Hlo & Hhi); [lia| |].
      + destruct Hq as [->|(mq & eq & Hq & He & _ & Hb)];
          [left; reflexivity|right].
        exists mq, eq. split; [exact Hq|]. split; [lia|exact Hb].
      + apply hours_by_24_trunc; [lia|assumption..]. }
  unfold uint_of_float64. rewrite Htrunc.
  destruct (Z.leb_spec 0 (d / (24 * Hour))),
           (Z.ltb_spec (d / (24 * Hour)) (2 ^ 16)); try lia.
  reflexivity.
Qed.

(** For a time less than 65536 days after the epoch and not within the
    last 2000 ns of an hour, writing with [WriteDate] and reading with
    [ReadDate] gives the time cut to the whole day.  The last
    nanoseconds of a day are left out for a reason: one nanosecond
    before 50000 days after the epoch, the float64 hours round up and
    the days written are 50000. *)
Theorem date_days_round_trip (t : Time) :
  (0 <= t - IoDateBase < 65536 * (24 * Hour) ->
   (t - IoDateBase) mod Hour <= Hour - 2000 ->
   round_trips (WriteDate IoDateBase conv t) (ReadDate IoDateBase)
     (truncated_to_day IoDateBase t)) /\
  round_trips
    (WriteDate IoDateBase conv (IoDateBase + 50000 * (24 * Hour) - 1))
    (ReadDate IoDateBase) (IoDateBase + 50000 * (24 * Hour)).
Proof.
  split.
  - intros Hd Hns. unfold round_trips, WriteDate.
    rewrite WriteUint16_run. cbn [fst snd app]. split; [reflexivity|].
    rewrite WriteDate_whole_days by assumption.
    set (d := t - IoDateBase) in *.
    assert (HN : 0 <= d / (24 * Hour) < 2 ^ 16).
    { split; [apply Z.div_pos; lia|].
      apply Z.div_lt_upper_bound; [lia|].
      change (2 ^ 16) with 65536. lia. }
    unfold ReadDate, bind.
    rewrite <- (app_nil_r (PutUint16 (d / (24 * Hour)))).
    rewrite ReadUint16_run by exact HN. unfold ret, truncated_to_day.
    fold d. rewrite Z.quot_div_nonneg by lia.
    unfold Time_Add, Duration_mul.
    assert (H1 : wrap_int64 (d / (24 * Hour) * Hour) = d / (24 * Hour) * Hour).
    { apply wrap_int64_id. change (2 ^ 16) with 65536 in HN.
      unfold Hour, Minute, Second in *. lia. }
    rewrite H1.
    assert (H2 : wrap_int64 (d / (24 * Hour) * Hour * 24)
                 = d / (24 * Hour) * Hour * 24).
    { apply wrap_int64_id. change (2 ^ 16) with 65536 in HN.
      unfold Hour, Minute, Second in *. lia. }
    rewrite H2. do 2 f_equal. f_equal. lia.
  - unfold round_trips, WriteDate. rewrite WriteUint16_run.
    cbn [fst snd app]. split; [reflexivity|].
    rewrite Time_Sub_in_range
      by (replace (IoDateBase + 50000 * (24 * Hour) - 1 - IoDateBase)
            with (50000 * (24 * Hour) - 1) by lia; split; discriminate).
    replace (IoDateBase + 50000 * (24 * Hour) - 1 - IoDateBase)
      with (50000 * (24 * Hour) - 1) by lia.
    replace (uint_of_float64 conv 16
               (float64_div (Duration_Hours (50000 * (24 * Hour) - 1))
                            (float64_of_int 24)))
      with 50000 by (vm_compute; reflexivity).
    unfold ReadDate, bind.
    rewrite <- (app_nil_r (PutUint16 50000)).
    rewrite ReadUint16_run by (split; [discriminate|reflexivity]).
    unfold ret, Time_Add. do 2 f_equal.
Qed.

End DateDays.

(** In the witness the time is 1000 days, 23 hours and 59 minutes after
    the epoch. *)
Lemma date_days_round_trip_witness :
  round_trips
    (WriteDate epoch_2020 conv_zero
       (epoch_2020 + 1000 * (24 * Hour) + 23 * Hour + 59 * Minute))
    (ReadDate epoch_2020) (epoch_2020 + 1000 * (24 * Hour)).
Proof.
  refine (proj1 (date_days_round_trip epoch_2020 conv_zero
                   (epoch_2020 + 1000 * (24 * Hour) + 23 * Hour
                    + 59 * Minute)) _ _).
  - split; [discriminate|reflexivity].
  - discriminate.
Defined.

(** ** Which buffers the reads accept *)

(** The reads of fixed width succeed exactly on the buffers that hold
    the bytes they need, [ReadString] exactly on those holding a zero
    byte; [ReadByteArray] and [ReadTime] succeed on every buffer of four
    bytes or more, whatever the length announced and the bytes that
    follow. *)
Theorem reads_succeed_exactly_when (IoDateBase : Time) (b : Buffer) (l : Z) :
  0 <= l ->
  (snd (fst (ReadByte b)) = None <-> 1 <= len b) /\
  (snd (fst (ReadBool b)) = None <-> 1 <= len b) /\
  (snd (fst (ReadUint16 b)) = None <-> 2 <= len b) /\
  (snd (fst (ReadUint32 b)) = None <-> 4 <= len b) /\
  (snd (fst (ReadFloat32 b)) = None <-> 4 <= len b) /\
  (snd (fst (ReadString b)) = None <-> In x00 b) /\
  (snd (fst (ReadByteArray b)) = None <-> 4 <= len b) /\
  (snd (fst (ReadByteArrayNoLength l b)) = None <-> l <= len b) /\
  (snd (fst (ReadDateFromUInt32 IoDateBase b)) = None <-> 4 <= len b) /\
  (snd (fst (ReadDate IoDateBase b)) = None <-> 2 <= len b) /\
  (snd (fst (ReadTime b)) = None <-> 4 <= len b).
Proof.
  intros Hl.
  assert (Happ : forall d rest : list byte, len (d ++ rest) = len d + len rest)
    by (intros d rest; unfold len; rewrite length_app; lia).
  assert (Hpos : forall d : list byte, 0 <= len d)
    by (intros d; unfold len; lia).
  assert (H16 : snd (fst (ReadUint16 b)) = None <-> 2 <= len b).
  { destruct (ReadUint16_cases b) as [[Hlt ->]|(d & r & -> & Hd & ->)];
      cbn [fst snd]; [split; [discriminate|lia]|].
    rewrite Happ. pose proof (Hpos r). split; [lia|reflexivity]. }
  assert (H32 : snd (fst (ReadUint32 b)) = None <-> 4 <= len b).
  { destruct (ReadUint32_cases b) as [[Hlt ->]|(d & r & -> & Hd & ->)];
      cbn [fst snd]; [split; [discriminate|lia]|].
    rewrite Happ. pose proof (Hpos r). split; [lia|reflexivity]. }
  assert (HBA : snd (fst (ReadByteArray b)) = None <-> 4 <= len b).
  { destruct (ReadByteArray_cases b) as [[Hlt ->]|(d & r & -> & Hd & ->)];
      cbn [fst snd]; [split; [discriminate|lia]|].
    rewrite Happ. pose proof (Hpos r). split; [lia|reflexivity]. }
  split.
  { destruct (ReadByte_cases b) as [[Hlt ->]|(c & r & -> & ->)];
      cbn [fst snd]; [split; [discriminate|lia]|].
    pose proof (Hpos r). unfold len in *. cbn [length].
    split; [lia|reflexivity]. }
  split.
  { destruct (ReadBool_cases b) as [[Hlt ->]|(c & r & -> & ->)];
      cbn [fst snd]; [split; [discriminate|lia]|].
    pose proof (Hpos r). unfold len in *. cbn [length].
    split; [lia|reflexivity]. }
  split; [exact H16|]. split; [exact H32|]. split.
  { rewrite <- H32. unfold ReadFloat32, bind.
    destruct (ReadUint32 b) as [[x [e|]] b1]; cbn [fst snd];
      split; (discriminate || reflexivity). }
  split.
  { destruct (ReadString_cases b) as [[Hn ->]|(s & r & -> & _ & ->)];
      cbn [fst snd]; [split; [discriminate|tauto]|].
    split; [|reflexivity]. intros _. apply in_or_app. right. left.
    reflexivity. }
  split; [exact HBA|]. split.
  { unfold ReadByteArrayNoLength, bind.
    destruct (Buffer_Next_cases l b Hl) as [[Hlt ->]|(d & r & -> & Hd & ->)].
    - rewrite len_neq_negb by exact Hlt. cbn [fst snd ret].
      split; [discriminate|lia].
    - rewrite Hd, Z.eqb_refl. cbn [negb fst snd ret]. rewrite Happ.
      pose proof (Hpos r). split; [lia|reflexivity]. }
  split.
  { rewrite <- H32. unfold ReadDateFromUInt32, bind.
    destruct (ReadUint32 b) as [[x [e|]] b1]; cbn [fst snd];
      split; (discriminate || reflexivity). }
  split.
  { rewrite <- H16. unfold ReadDate, bind.
    destruct (ReadUint16 b) as [[x [e|]] b1]; cbn [fst snd];
      split; (discriminate || reflexivity). }
  rewrite <- HBA. unfold ReadTime, bind.
  destruct (ReadByteArray b) as [[x [e|]] b1]; cbn [fst snd];
    split; (discriminate || reflexivity).
Qed.

(** In the witness the buffer announces a byte array of 255 bytes and
    holds one. *)
Lemma reads_succeed_exactly_when_witness :
  snd (fst (ReadTime [xff; x00; x00; x00; x01])) = None.
Proof.
  apply (proj2 (proj2 (proj2 (proj2 (proj2 (proj2 (proj2 (proj2 (proj2
           (proj2 (reads_succeed_exactly_when 0 [xff; x00; x00; x00; x01] 0
                     ltac:(discriminate)))))))))))).
  discriminate.
Defined.



(** ** Times just before the epoch *)

(** Rounding to nearest even does not look at the sign. *)
Lemma binary_round_aux_sign (sx : bool) (mx ex : Z) (lx : location) :
  binary_round_aux 53 1024 sx mx ex lx =
    with_sign sx (binary_round_aux 53 1024 false mx ex lx).
Proof.
  unfold binary_round_aux.
  destruct (shr_fexp 53 1024 mx ex lx) as [mrs' e'].
  destruct (shr_fexp 53 1024 _ e' loc_Exact) as [mrs'' e''].
  destruct (shr_m mrs''); [reflexivity| |reflexivity].
  destruct (e'' <=? 1024 - 53); reflexivity.
Qed.

Lemma float64_of_int_neg (z : positive) :
  float64_of_int (Zneg z) = with_sign true (float64_of_int (Zpos z)).
Proof.
  unfold float64_of_int, binary_normalize, binary_round.
  destruct (shl_align z 0 _) as [mz ez]. apply binary_round_aux_sign.
Qed.

Lemma float64_div_neg (m1 m2 : positive) (e1 e2 : Z) :
  float64_div (S754_finite true m1 e1) (S754_finite false m2 e2) =
    with_sign true
      (float64_div (S754_finite false m1 e1) (S754_finite false m2 e2)).
Proof.
  unfold float64_div. cbn [SFdiv xorb].
  destruct (SFdiv_core_binary 53 1024 (Zpos m1) e1 (Zpos m2) e2)
    as [[mz ez] lz].
  apply binary_round_aux_sign.
Qed.

(** The quotient of a negative count of nanoseconds is the one of the
    positive count with the sign changed. *)
Lemma float64_div_of_neg (z : positive) (m2 : positive) (e2 : Z) :
  Zpos z < 2 ^ 53 ->
  float64_div (float64_of_int (Zneg z)) (S754_finite false m2 e2) =
    with_sign true
      (float64_div (float64_of_int (Zpos z)) (S754_finite false m2 e2)).
Proof.
  intros Hz. rewrite float64_of_int_neg.
  destruct (float64_of_int_exact z Hz) as (m1 & -> & _).
  apply float64_div_neg.
Qed.

Lemma float64_trunc_neg_fraction (mq : positive) (eq : Z) :
  eq <= 0 -> Zpos mq < 2 ^ (- eq) ->
  float64_trunc (S754_finite true mq eq) = Some 0.
Proof.
  intros He Hm. cbn [float64_trunc cond_Zopp].
  rewrite shiftl_neg_small by assumption. reflexivity.
Qed.

Section BeforeEpoch.

Variable IoDateBase : Time.
Variable conv : Z -> float64 -> Z.

Lemma GetDateInMinutes_before_epoch (t : Time) :
  - (Minute - 2000) <= t - IoDateBase <= 0 ->
  GetDateInMinutes IoDateBase conv t = 0.
Proof.
  intros Hd. unfold GetDateInMinutes.
  rewrite Time_Sub_in_range
    by (unfold minDuration, maxDuration, Minute, Second in *; lia).
  destruct (t - IoDateBase) as [|z|z] eqn:Ed; [reflexivity|lia|].
  assert (Hz : Zpos z <= Minute - 2000) by lia.
  unfold Duration_Minutes.
  change (Zneg z) with (- Zpos z).
  rewrite Z.quot_opp_l, Z.rem_opp_l by discriminate.
  rewrite Z.quot_small, Z.rem_small
    by (unfold Minute, Second in *; lia).
  change (- 0) with 0. change (- Zpos z) with (Zneg z).
  change (float64_of_int (60 * 1000000000))
    with (S754_finite false 7864320000000000 (-17)).
  rewrite float64_div_of_neg by (unfold Minute, Second in *; lia).
  destruct (minute_fraction_bound (Zpos z)) as (mq & eq & Hq & He & Hb);
    [lia|].
  change (float64_of_int (60 * 1000000000))
    with (S754_finite false 7864320000000000 (-17)) in Hq.
  rewrite Hq. cbn [with_sign].
  change (float64_add (float64_of_int 0) (S754_finite true mq eq))
    with (S754_finite true mq eq).
  unfold uint_of_float64. rewrite float64_trunc_neg_fraction; [reflexivity|lia|].
  assert (0 < 2 ^ (- eq)) by (apply Z.pow_pos_nonneg; lia). lia.
Qed.

Lemma WriteDate_before_epoch (t : Time) :
  - (Hour - 2000) <= t - IoDateBase <= 0 ->
  uint_of_float64 conv 16
    (float64_div (Duration_Hours (Time_Sub t IoDateBase))
                 (float64_of_int 24)) = 0.
Proof.
  intros Hd.
  rewrite Time_Sub_in_range
    by (unfold minDuration, maxDuration, Hour, Minute, Second in *; lia).
  destruct (t - IoDateBase) as [|z|z] eqn:Ed; [reflexivity|lia|].
  assert (Hz : Zpos z <= Hour - 2000) by lia.
  unfold Duration_Hours.
  change (Zneg z) with (- Zpos z).
  rewrite Z.quot_opp_l, Z.rem_opp_l by discriminate.
  rewrite Z.quot_small, Z.rem_small
    by (unfold Hour, Minute, Second in *; lia).
  change (- 0) with 0. change (- Zpos z) with (Zneg z).
  change (float64_of_int (60 * 60 * 1000000000))
    with (S754_finite false 7372800000000000 (-11)).
  rewrite float64_div_of_neg by (unfold Hour, Minute, Second in *; lia).
  destruct (hour_fraction_bound (Zpos z)) as (mq & eq & Hq & He & Hdq & Hb);
    [lia|].
  change (float64_of_int (60 * 60 * 1000000000))
    with (S754_finite false 7372800000000000 (-11)) in Hq.
  rewrite Hq. cbn [with_sign].
  change (float64_add (float64_of_int 0) (S754_finite true mq eq))
    with (S754_finite true mq eq).
  change (float64_of_int 24) with (S754_finite false 6755399441055744 (-48)).
  rewrite float64_div_neg.
  pose proof (fraction_by_24_trunc mq eq He Hdq) as H24.
  change (float64_of_int 24)
    with (S754_finite false 6755399441055744 (-48)) in H24.
  unfold uint_of_float64.
  destruct (float64_div (S754_finite false mq eq)
              (S754_finite false 6755399441055744 (-48)))
    as [s|s| |s m e]; try discriminate.
  - reflexivity.
  - cbn [with_sign float64_trunc] in *. injection H24 as H24.
    assert (H0 : Z.shiftl (Zpos m) e = 0)
      by (destruct s; cbn [cond_Zopp] in H24; lia).
    cbn [cond_Zopp]. rewrite H0. reflexivity.
Qed.

(** A time before the epoch by no more than a minute less 2000 ns is
    written by [WriteDateToUInt32] as minute 0, and one before it by no
    more than an hour less 2000 ns is written by [WriteDate] as day 0:
    the conversion to an unsigned integer drops the fraction towards
    zero, so these times are read back as the epoch, which is later. *)
Theorem before_epoch_written_as_zero (t : Time) :
  (- (Minute - 2000) <= t - IoDateBase <= 0 ->
   round_trips (WriteDateToUInt32 IoDateBase conv t)
     (ReadDateFromUInt32 IoDateBase) IoDateBase) /\
  (- (Hour - 2000) <= t - IoDateBase <= 0 ->
   round_trips (WriteDate IoDateBase conv t) (ReadDate IoDateBase)
     IoDateBase).
Proof.
  split; intros Hd.
  - unfold round_trips, WriteDateToUInt32. rewrite WriteUint32_run.
    cbn [fst snd app]. split; [reflexivity|].
    rewrite GetDateInMinutes_before_epoch by exact Hd.
    unfold ReadDateFromUInt32, bind.
    rewrite <- (app_nil_r (PutUint32 0)).
    rewrite ReadUint32_run by (split; [discriminate|reflexivity]).
    unfold ret, Time_Add, Duration_mul.
    change (wrap_int64 (0 * Minute)) with 0. rewrite Z.add_0_r.
    reflexivity.
  - unfold round_trips, WriteDate. rewrite WriteUint16_run.
    cbn [fst snd app]. split; [reflexivity|].
    rewrite WriteDate_before_epoch by exact Hd.
    unfold ReadDate, bind.
    rewrite <- (app_nil_r (PutUint16 0)).
    rewrite ReadUint16_run by (split; [discriminate|reflexivity]).
    unfold ret, Time_Add, Duration_mul.
    change (wrap_int64 (wrap_int64 (0 * Hour) * 24)) with 0.
    rewrite Z.add_0_r. reflexivity.
Qed.

End BeforeEpoch.

(** In the witness the time is 30 seconds before the epoch. *)
Lemma before_epoch_written_as_zero_witness :
  round_trips (WriteDateToUInt32 epoch_2020 conv_zero (epoch_2020 - 30 * Second))
    (ReadDateFromUInt32 epoch_2020) epoch_2020 /\
  round_trips (WriteDate epoch_2020 conv_zero (epoch_2020 - 30 * Second))
    (ReadDate epoch_2020) epoch_2020.
Proof.
  split.
  - refine (proj1 (before_epoch_written_as_zero epoch_2020 conv_zero
                     (epoch_2020 - 30 * Second)) _).
    split; discriminate.
  - refine (proj2 (before_epoch_written_as_zero epoch_2020 conv_zero
                     (epoch_2020 - 30 * Second)) _).
    split; discriminate.
Defined.

(** ** Arrays of 65536 elements or more *)

(** The count of an array is written modulo 65536 and every element is
    written after it, so reading gives back the elements up to that
    count and leaves the bytes of the others unread. *)
Theorem arrays_count_modulo (ss1 ss2 : list gostring)
  (ds1 ds2 : list (list byte)) :
  len ss1 = len (ss1 ++ ss2) mod 2 ^ 16 ->
  Forall (fun s => ~ In x00 s) ss1 ->
  len ds1 = len (ds1 ++ ds2) mod 2 ^ 16 ->
  Forall (fun d => len d < 2 ^ 32) ds1 ->
  ReadStrings (snd (WriteStrings (ss1 ++ ss2) [])) =
    ((Slice ss1, None), strings_bytes ss2) /\
  ReadByteArrayArray (snd (WriteByteArrayArray (ds1 ++ ds2) [])) =
    ((Slice (map Slice ds1), None), byte_arrays_bytes ds2).
Proof.
  intros Hs Hz Hd Hl.
  assert (Hp : 0 < 2 ^ 16) by reflexivity.
  split.
  - rewrite WriteStrings_run. cbn [snd app]. unfold wrap. rewrite <- Hs.
    unfold strings_bytes. rewrite map_app, concat_app.
    apply ReadStrings_run; [|exact Hz].
    rewrite Hs. apply Z.mod_pos_bound, Hp.
  - rewrite WriteByteArrayArray_run. cbn [snd app]. unfold wrap.
    rewrite <- Hd. unfold byte_arrays_bytes. rewrite map_app, concat_app.
    apply ReadByteArrayArray_run; [|exact Hl].
    rewrite Hd. apply Z.mod_pos_bound, Hp.
Qed.

(** In the witness one string is followed by 65536 empty strings, and one
    byte array by 65536 empty byte arrays: only the first element is read
    back. *)
Lemma arrays_count_modulo_witness :
  ReadStrings (snd (WriteStrings ([[x61]] ++ replicate (Z.to_nat 65536) []) [])) =
    ((Slice [[x61]], None), strings_bytes (replicate (Z.to_nat 65536) [])) /\
  ReadByteArrayArray
    (snd (WriteByteArrayArray ([[x61]] ++ replicate (Z.to_nat 65536) []) [])) =
    ((Slice [Slice [x61]], None), byte_arrays_bytes (replicate (Z.to_nat 65536) [])).
Proof.
  apply (arrays_count_modulo [[x61]] (replicate (Z.to_nat 65536) [])
           [[x61]] (replicate (Z.to_nat 65536) [])).
  - unfold len. rewrite length_app, length_replicate. reflexivity.
  - constructor; [|constructor]. cbn. intuition discriminate.
  - unfold len. rewrite length_app, length_replicate. reflexivity.
  - constructor; [reflexivity|constructor].
Defined.
